(** * strfmt: the format registry (format.go) and the currency format

    A shallow embedding of [defaultFormats], the registry of string formats,
    of its decode hook and generator view, and of the [Currency] format that
    registers itself in [Default].

    Layout of the development:
    - [strings], [reflect]: the parts of Go's library the registry calls;
    - the registry over immutable lists (what each method computes);
    - [Mem]: the same mutators over slices with backing arrays, to speak
      about two registries after [NewSeededFormats];
    - [Sync]: the methods as lock/unlock programs run by two goroutines. *)

From Stdlib Require Import Ascii String ZArith.
From stdpp Require Import base tactics option relations list strings gmap.

Local Open Scope string_scope.
Local Open Scope list_scope.

(** ** Go's [strings] package, as far as format.go uses it *)

Module strings.

(** [replace_from old new skip s]: copy [s], dropping [skip] more bytes of a
    match already replaced, and replacing every further leftmost occurrence of
    [old]. *)
Fixpoint replace_from (old new : string) (skip : nat) (s : string) : string :=
  match s with
  | EmptyString => EmptyString
  | String c rest =>
      match skip with
      | S k => replace_from old new k rest
      | O =>
          if String.prefix old s
          then new +:+ replace_from old new (String.length old - 1) rest
          else String c (replace_from old new 0 rest)
      end
  end.

(** [strings.ReplaceAll(s, old, new)] for a non-empty [old]: all
    non-overlapping instances of [old], leftmost first, replaced by [new]. *)
Definition ReplaceAll (s old new : string) : string := replace_from old new 0 s.

(** An ASCII letter, [A-Za-z]. *)
Definition is_letter (c : ascii) : bool :=
  let n := nat_of_ascii c in
  ((65 <=? n) && (n <=? 90) || (97 <=? n) && (n <=? 122))%nat.

(** The upper-case form of one byte; bytes that are no lower-case ASCII
    letter stay as they are. *)
Definition upper (c : ascii) : ascii :=
  let n := nat_of_ascii c in
  if ((97 <=? n) && (n <=? 122))%nat then ascii_of_nat (n - 32) else c.

(** [strings.ToUpper(s)] on the ASCII strings the package passes to it. *)
Fixpoint ToUpper (s : string) : string :=
  match s with
  | EmptyString => EmptyString
  | String c rest => String (upper c) (ToUpper rest)
  end.

End strings.

(** ** Name normalisation (format.go, 114-120) *)

(** [type NameNormalizer func(string) string] *)
Definition NameNormalizer : Type := string -> string.

(** [DefaultNameNormalizer] removes all dashes. *)
Definition DefaultNameNormalizer : NameNormalizer :=
  fun name => strings.ReplaceAll name "-" "".

(** The byte ['-'], the only separator the default normaliser knows. *)
Definition dash : ascii := "-"%char.

(** Two names that differ only by where dashes stand: the least relation that
    relates the empty names, is compatible with putting the same byte in front
    of both, and lets either side carry one more dash. *)
Inductive dash_variant : string -> string -> Prop :=
  | dv_empty : dash_variant "" ""
  | dv_same c a b : dash_variant a b -> dash_variant (String c a) (String c b)
  | dv_dash_l a b : dash_variant a b -> dash_variant (String dash a) b
  | dv_dash_r a b : dash_variant a b -> dash_variant a (String dash b).

(** A name has no dash. *)
Fixpoint dash_free (s : string) : Prop :=
  match s with
  | EmptyString => True
  | String c rest => c <> dash /\ dash_free rest
  end.

(** ** Go's [reflect] package: kinds and type identities *)

Module reflect.

(** [reflect.Kind], the kinds a registered type or a decoded value can have. *)
Inductive Kind : Set :=
  | Bool | Int | Int64 | Uint64 | Float64 | String | Struct | Slice | Array
  | Map | Func | Interface | Ptr.

Global Instance Kind_eq_dec : EqDecision Kind.
Proof. solve_decision. Defined.

(** [reflect.Type]: the identity of a Go type.  A defined type is known by
    its name and has the kind of its underlying type; [PtrTo t] is [*t].
    Two [reflect.Type] values are [==] exactly when they are the same type. *)
Inductive Type_ : Set :=
  | Defined (name : string) (kind : Kind)
  | PtrTo (elem : Type_).

Global Instance Type_eq_dec : EqDecision Type_.
Proof. solve_decision. Defined.

(** [t.Kind()] *)
Definition Kind_of (t : Type_) : Kind :=
  match t with
  | Defined _ k => k
  | PtrTo _ => Ptr
  end.

(** [t.Elem()], called on pointer types only. *)
Definition Elem (t : Type_) : Type_ :=
  match t with
  | PtrTo e => e
  | Defined _ _ => t
  end.

(** [t.Name()]: the name of a defined type, empty for [*t]. *)
Definition Name_of (t : Type_) : string :=
  match t with
  | Defined n _ => n
  | PtrTo _ => ""
  end.

End reflect.

(** ** Values, errors and results *)

(** The non-nil values that travel through the registry as [interface{}] or
    [Format]: predeclared scalars, values of defined types over a
    representation, and pointers.  [VZero] is the zero representation of a
    kind this development does not look into (a struct of zero fields, a nil
    slice or map). *)
Inductive value : Type :=
  | VBool (b : bool)
  | VInt (z : Z)
  | VString (s : string)
  | VNamed (t : reflect.Type_) (repr : value)
  | VPtr (target : value)
  | VZero.

(** [reflect.TypeOf(v)] *)
Fixpoint TypeOf (v : value) : reflect.Type_ :=
  match v with
  | VBool _ => reflect.Defined "bool" reflect.Bool
  | VInt _ => reflect.Defined "int" reflect.Int
  | VString _ => reflect.Defined "string" reflect.String
  | VNamed t _ => t
  | VPtr w => reflect.PtrTo (TypeOf w)
  | VZero => reflect.Defined "struct {}" reflect.Struct
  end.


(** The errors format.go builds itself, and those it passes on. *)
Inductive error : Type :=
  | InvalidTypeName (name : string)
      (** [errors.InvalidTypeName(name)]: the unknown-format error *)
  | CastToString (obj : value)
      (** [fmt.Errorf("failed to cast %+v to string: %w", obj, ErrFormat)] *)
  | EmptyDateTime
      (** [fmt.Errorf("empty string is an invalid datetime format: %w", ErrFormat)] *)
  | DecodeError (msg : string)
      (** an error returned by a parser or by [UnmarshalText] *).

(** A Go result pair [(v, nil)] or [(nil, err)]. *)
Inductive result (A : Type) : Type :=
  | Ok (a : A)
  | Err (e : error).
Arguments Ok {A} a.
Arguments Err {A} e.

(** ** The registry (format.go, 107-145) *)

(** [type Validator func(string) bool] *)
Definition Validator : Type := string -> bool.

(** [type Format interface { String; MarshalText; UnmarshalText }]: the
    registry only ever asks a format instance for its dynamic type. *)
Definition Format : Type := value.

Record knownFormat : Type := mkKnownFormat {
  Name : string;
  OrigName : string;
  Type_ : reflect.Type_;
  Validator_ : Validator;
}.

(** [defaultFormats] without its mutex: the entries in registration order and
    the normaliser. *)
Record defaultFormats : Type := mkFormats {
  data : list knownFormat;
  normalizeName : NameNormalizer;
}.

(** [NewSeededFormats(seeds, normalizer)]; [None] is a nil normaliser. *)
Definition NewSeededFormats (seeds : list knownFormat)
    (normalizer : option NameNormalizer) : defaultFormats :=
  let normalizer := default DefaultNameNormalizer normalizer in
  let d := [] ++ seeds in
  {| data := d; normalizeName := normalizer |}.

(** [NewFormats()], given the registry [Default] it is seeded from. *)
Definition NewFormats (Default : defaultFormats) : defaultFormats :=
  NewSeededFormats (data Default) None.

(** [for _, v := range f.data { if v.Name == nme { return v ... } }] *)
Definition by_name (nme : string) (v : knownFormat) : bool :=
  bool_decide (Name v = nme).

Definition by_type (tpe : reflect.Type_) (v : knownFormat) : bool :=
  bool_decide (Type_ v = tpe).

(** The type a format instance registers: its dynamic type, or the pointed-to
    type when it is a pointer (format.go, 242-245). *)
Definition format_type (strfmt : Format) : reflect.Type_ :=
  let tpe := TypeOf strfmt in
  if decide (reflect.Kind_of tpe = reflect.Ptr) then reflect.Elem tpe else tpe.

(** The loop of [Add] (format.go, 247-254): overwrite type and validator of
    the first entry named [nme]; [None] when the loop ends without a match. *)
Fixpoint replace_first (nme : string) (tpe : reflect.Type_) (validator : Validator)
    (l : list knownFormat) : option (list knownFormat) :=
  match l with
  | [] => None
  | v :: rest =>
      if by_name nme v
      then Some ({| Name := Name v; OrigName := OrigName v;
                    Type_ := tpe; Validator_ := validator |} :: rest)
      else cons v <$> replace_first nme tpe validator rest
  end.

(** [Add] adds a new format, returns true if this was a new item instead of a
    replacement. *)
Definition Add (f : defaultFormats) (name : string) (strfmt : Format)
    (validator : Validator) : bool * defaultFormats :=
  let nme := normalizeName f name in
  let tpe := format_type strfmt in
  match replace_first nme tpe validator (data f) with
  | Some d => (false, {| data := d; normalizeName := normalizeName f |})
  | None =>
      (true,
       {| data := data f ++ [ {| Name := nme; OrigName := name;
                                 Type_ := tpe; Validator_ := validator |} ];
          normalizeName := normalizeName f |})
  end.

(** [GetType] gets the type for the specified name. *)
Definition GetType (f : defaultFormats) (name : string) : option reflect.Type_ :=
  let nme := normalizeName f name in
  Type_ <$> List.find (by_name nme) (data f).

(** The loop of [DelByName] and [DelByFormat] (format.go, 281-288): drop the
    first entry that matches; [None] when there is none. *)
Fixpoint remove_first (p : knownFormat -> bool) (l : list knownFormat)
    : option (list knownFormat) :=
  match l with
  | [] => None
  | v :: rest => if p v then Some rest else cons v <$> remove_first p rest
  end.

(** [DelByName] removes the format by the specified name, returns true when an
    item was actually removed. *)
Definition DelByName (f : defaultFormats) (name : string) : bool * defaultFormats :=
  let nme := normalizeName f name in
  match remove_first (by_name nme) (data f) with
  | Some d => (true, {| data := d; normalizeName := normalizeName f |})
  | None => (false, f)
  end.

(** [DelByFormat] removes the specified format. *)
Definition DelByFormat (f : defaultFormats) (strfmt : Format) : bool * defaultFormats :=
  let tpe := format_type strfmt in
  match remove_first (by_type tpe) (data f) with
  | Some d => (true, {| data := d; normalizeName := normalizeName f |})
  | None => (false, f)
  end.

(** [ContainsName] returns true if this registry contains the specified name. *)
Definition ContainsName (f : defaultFormats) (name : string) : bool :=
  let nme := normalizeName f name in
  existsb (by_name nme) (data f).

(** [ContainsFormat] returns true if this registry contains the specified format. *)
Definition ContainsFormat (f : defaultFormats) (strfmt : Format) : bool :=
  let tpe := format_type strfmt in
  existsb (by_type tpe) (data f).

(** [Validates] passed data against format. *)
Definition Validates (f : defaultFormats) (name data_ : string) : bool :=
  let nme := normalizeName f name in
  match List.find (by_name nme) (data f) with
  | Some v => Validator_ v data_
  | None => false
  end.

(** ** Parse (format.go, 357-377) *)

(** [reflect.Zero(t)]: the zero value of a type, [t] over the zero of its
    representation. *)
Definition Zero (t : reflect.Type_) : value :=
  match reflect.Kind_of t with
  | reflect.Bool => VNamed t (VBool false)
  | reflect.Int | reflect.Int64 | reflect.Uint64 => VNamed t (VInt 0)
  | reflect.String => VNamed t (VString "")
  | _ => VNamed t VZero
  end.

(** [reflect.New(t).Interface()]: a pointer to a fresh zero value of type [t]. *)
Definition New (t : reflect.Type_) : value := VPtr (Zero t).

(** [encoding.TextUnmarshaler]: [UnmarshalText] takes the receiver and the
    text, and leaves the receiver updated and an error or nil. *)
Definition TextUnmarshaler : Type := value -> string -> value * option error.

Section Parse.

(** The method sets of the program the registry is linked into: for the
    dynamic type of a value, its [UnmarshalText] method if it has one. *)
Variable method_set : reflect.Type_ -> option TextUnmarshaler.

(** [Parse] a string into the appropriate format representation type. *)
Definition Parse (f : defaultFormats) (name data_ : string) : result value :=
  let nme := normalizeName f name in
  match List.find (by_name nme) (data f) with
  | Some v =>
      let nw := New (Type_ v) in
      match method_set (TypeOf nw) with
      | Some UnmarshalText =>
          match UnmarshalText nw data_ with
          | (_, Some err) => Err err
          | (nw, None) => Ok nw
          end
      | None => Err (InvalidTypeName name)
      end
  | None => Err (InvalidTypeName name)
  end.

End Parse.

(** ** The decode hook (format.go, 147-233) *)

(** The parsers the hook calls that live in other files of the package. *)
Inductive parser : Set :=
  | time_ParseInLocation_RFC3339FullDate
  | ParseDateTime
  | ParseDuration
  | ParseULID.

(** What one call of the hook does: it returns a result of its own, or it
    calls [p data], passes an error on and returns the parsed value
    converted by [conv]. *)
Inductive outcome : Type :=
  | Return (r : result value)
  | Call (p : parser) (data_ : string) (conv : value -> value).


(** A type the package defines, by name and kind. *)
Definition strfmt_type (name : string) (k : reflect.Kind) : reflect.Type_ :=
  reflect.Defined name k.

(** [T(data)] for a string-backed type [T] of the package. *)
Definition conv_string (name : string) (data_ : string) : outcome :=
  Return (Ok (VNamed (strfmt_type name reflect.String) (VString data_))).

(** The cases of [switch v.Name] (format.go, 161-228), in source order. *)
Definition hook_cases : list (string * (string -> outcome)) :=
  [ ("date", fun data_ =>
       Call time_ParseInLocation_RFC3339FullDate data_
            (VNamed (strfmt_type "Date" reflect.Struct)));
    ("datetime", fun data_ =>
       let input := data_ in
       if decide (String.length input = 0) then Return (Err EmptyDateTime)
       else Call ParseDateTime input id);
    ("duration", fun data_ =>
       Call ParseDuration data_ (VNamed (strfmt_type "Duration" reflect.Int64)));
    ("uri", conv_string "URI");
    ("email", conv_string "Email");
    ("uuid", conv_string "UUID");
    ("uuid3", conv_string "UUID3");
    ("uuid4", conv_string "UUID4");
    ("uuid5", conv_string "UUID5");
    ("hostname", conv_string "Hostname");
    ("ipv4", conv_string "IPv4");
    ("ipv6", conv_string "IPv6");
    ("cidr", conv_string "CIDR");
    ("mac", conv_string "MAC");
    ("isbn", conv_string "ISBN");
    ("isbn10", conv_string "ISBN10");
    ("isbn13", conv_string "ISBN13");
    ("creditcard", conv_string "CreditCard");
    ("ssn", conv_string "SSN");
    ("hexcolor", conv_string "HexColor");
    ("rgbcolor", conv_string "RGBColor");
    ("byte", fun data_ =>
       Return (Ok (VNamed (strfmt_type "Base64" reflect.Slice) (VString data_))));
    ("password", conv_string "Password");
    ("ulid", fun data_ => Call ParseULID data_ id) ].

(** The first case whose constant equals [name]. *)
Fixpoint lookup_case {A : Type} (name : string) (cases : list (string * A)) : option A :=
  match cases with
  | [] => None
  | (c, body) :: rest => if decide (name = c) then Some body else lookup_case name rest
  end.

(** [switch v.Name { case ...: ... default: return nil, errors.InvalidTypeName(v.Name) }] *)
Definition hook_switch (name data_ : string) : outcome :=
  match lookup_case name hook_cases with
  | Some body => body data_
  | None => Return (Err (InvalidTypeName name))
  end.

(** [for _, v := range f.data { tpe, _ := f.GetType(v.Name); if to == tpe { switch ... } }]
    and the [return data, nil] after the loop. *)
Fixpoint hook_range (f : defaultFormats) (to : reflect.Type_) (data_ : string)
    (l : list knownFormat) : outcome :=
  match l with
  | [] => Return (Ok (VString data_))
  | v :: rest =>
      let tpe := GetType f (Name v) in
      if decide (Some to = tpe) then hook_switch (Name v) data_
      else hook_range f to data_ rest
  end.

(** The function [MapStructureHookFunc] returns, applied to [(from, to, obj)]. *)
Definition MapStructureHookFunc (f : defaultFormats) (from to : reflect.Type_)
    (obj : value) : outcome :=
  if decide (reflect.Kind_of from <> reflect.String) then Return (Ok obj)
  else
    match obj with
    | VString data_ => hook_range f to data_ (data f)
    | _ => Return (Err (CastToString obj))
    end.

(** ** The generator view (format.go, 379-454) *)

Definition Normalized (f : defaultFormats) (name : string) : string :=
  let nme := normalizeName f name in
  if existsb (fun format => bool_decide (nme = Name format)) (data f) then nme else "".

Definition Formats (f : defaultFormats) : list string :=
  foldl (fun formats format => formats ++ [Name format]) [] (data f).

Definition Types (f : defaultFormats) : list string :=
  foldl (fun types format => types ++ [reflect.Name_of (Type_ format)]) [] (data f).

Definition FormatToTypes (f : defaultFormats) : gmap string string :=
  foldl (fun lookup format => <[Name format := reflect.Name_of (Type_ format)]> lookup)
        ∅ (data f).

Definition TypeToFormats (f : defaultFormats) : gmap string (list string) :=
  foldl (fun lookup format =>
           let list := default [] (lookup !! reflect.Name_of (Type_ format)) in
           <[reflect.Name_of (Type_ format) := list ++ [Name format]]> lookup)
        ∅ (data f).

(** [s] between double quotes, as it stands in a Go string literal. *)
Definition quoted (s : string) : string :=
  String (ascii_of_nat 34) (s +:+ String (ascii_of_nat 34) "").

(** The literal of [ZeroExpressions], in source order. *)
Definition zero_expressions : list (string * string) :=
  [ ("CreditCard", "CreditCard(" +:+ quoted "" +:+ ")");
    ("Email", "Email(" +:+ quoted "" +:+ ")");
    ("HexColor", "HexColor(" +:+ quoted "#000000" +:+ ")");
    ("Hostname", "Hostname(" +:+ quoted "" +:+ ")");
    ("IPv4", "IPv4(" +:+ quoted "" +:+ ")");
    ("IPv6", "IPv6(" +:+ quoted "" +:+ ")");
    ("ISBN", "ISBN(" +:+ quoted "" +:+ ")");
    ("ISBN10", "ISBN10(" +:+ quoted "" +:+ ")");
    ("ISBN13", "ISBN13(" +:+ quoted "" +:+ ")");
    ("MAC", "MAC(" +:+ quoted "" +:+ ")");
    ("ObjectId", "ObjectId(" +:+ quoted "" +:+ ")");
    ("Password", "Password(" +:+ quoted "" +:+ ")");
    ("RGBColor", "RGBColor(" +:+ quoted "rgb(0,0,0)" +:+ ")");
    ("SSN", "SSN(" +:+ quoted "" +:+ ")");
    ("URI", "URI(" +:+ quoted "" +:+ ")");
    ("UUID", "UUID(" +:+ quoted "" +:+ ")");
    ("UUID3", "UUID3(" +:+ quoted "" +:+ ")");
    ("UUID4", "UUID4(" +:+ quoted "" +:+ ")");
    ("UUID5", "UUID5(" +:+ quoted "" +:+ ")");
    ("Base64", "Base64([]byte(nil))");
    ("Date", "Date{}");
    ("DateTime", "DateTime{}");
    ("Duration", "Duration(0)") ].

(** [ZeroExpressions]: a map made with room for [len(f.data)] entries and
    then replaced by the literal. *)
Definition ZeroExpressions (f : defaultFormats) : gmap string string :=
  let lookup : gmap string string := ∅ in
  let lookup : gmap string string := list_to_map zero_expressions in
  lookup.

Definition SchemaInfo (f : defaultFormats) (v : value) : string * string := ("", "").

(** ** The currency format (the file that registers "currency") *)

(** [type Currency string] *)
Definition Currency_type : reflect.Type_ := strfmt_type "Currency" reflect.String.

(** The conversion [Currency(s)]. *)
Definition Currency (s : string) : value := VNamed Currency_type (VString s).

(** List of ISO currencies as of Feb 2018. *)
Definition isoCurrencies : gmap string bool :=
  list_to_map
    [ ("AFA", true); ("EUR", true); ("USD", true); ("GBP", true);
      ("CHF", true); ("SGD", true); ("CAD", true) ].

(** [currencyMatcher.MatchString(str)] for the pattern [^[A-Za-z]{3}$]:
    exactly three ASCII letters. *)
Definition currencyMatcher_MatchString (str : string) : bool :=
  match str with
  | String a (String b (String c EmptyString)) =>
      strings.is_letter a && strings.is_letter b && strings.is_letter c
  | _ => false
  end.

(** [IsCurrency] returns true if the provided string is a valid currency. *)
Definition IsCurrency (str : string) : bool :=
  if currencyMatcher_MatchString str then
    match isoCurrencies !! strings.ToUpper str with
    | Some auth => auth
    | None => false
    end
  else false.

(** [func (d *Currency) UnmarshalText(data []byte) error]: [*d = Currency(data)],
    no error. *)
Definition Currency_UnmarshalText : TextUnmarshaler :=
  fun d data_ => (VPtr (Currency data_), None).

(** The method sets of the package as far as its source is at hand:
    [*Currency] has [UnmarshalText]; every other type is looked up in
    [declared_elsewhere]. *)
Definition strfmt_method_set
    (declared_elsewhere : reflect.Type_ -> option TextUnmarshaler)
    (t : reflect.Type_) : option TextUnmarshaler :=
  if decide (t = reflect.PtrTo Currency_type) then Some Currency_UnmarshalText
  else declared_elsewhere t.

(** [func init() { d := Currency(""); Default.Add("currency", &d, IsCurrency) }] *)
Definition init_currency (Default : defaultFormats) : defaultFormats :=
  let d := Currency "" in
  snd (Add Default "currency" (VPtr d) IsCurrency).

(** [var Default = NewSeededFormats(nil, nil)] *)
Definition Default_at_start : defaultFormats := NewSeededFormats [] None.

(** ** Invariants of the registry *)

(** At most one entry per normalised name. *)
Definition unique_names (f : defaultFormats) : Prop := NoDup (map Name (data f)).

(** The number of entries of [f] whose key is [nme]. *)
Definition entry_count (f : defaultFormats) (nme : string) : nat :=
  length (filter (fun v => Name v = nme) (data f)).

(** Every stored key is a fixed point of the registry's normaliser, so
    looking an entry up by its own key finds that key. *)
Definition names_normal (f : defaultFormats) : Prop :=
  Forall (fun v => normalizeName f (Name v) = Name v) (data f).

(** The mutations of the registry's public interface. *)
Inductive mutation : Type :=
  | MAdd (name : string) (strfmt : Format) (validator : Validator)
  | MDelByName (name : string)
  | MDelByFormat (strfmt : Format).

(** One mutation applied to a registry. *)
Definition mutate (f : defaultFormats) (m : mutation) : defaultFormats :=
  match m with
  | MAdd name strfmt validator => snd (Add f name strfmt validator)
  | MDelByName name => snd (DelByName f name)
  | MDelByFormat strfmt => snd (DelByFormat f strfmt)
  end.

(** The registries a program can build: a fresh one, with the default or with
    its own normaliser, and whatever mutations lead to.  ([NewFormats] copies
    the entries of such a registry.) *)
Inductive reachable : defaultFormats -> Prop :=
  | reach_new normalizer : reachable (NewSeededFormats [] normalizer)
  | reach_step f m : reachable f -> reachable (mutate f m).

(** A text-decode method that rejects the empty text; it serves to watch
    [Parse] pass a decode error on. *)
Definition reject_empty : TextUnmarshaler :=
  fun d data_ =>
    if decide (data_ = "") then (d, Some (DecodeError "empty"))
    else (VPtr (Currency data_), None).

(** ** Registries in memory: slices over backing arrays

    [f.data] is a slice: a header (array, length, capacity) over a backing
    array that [Add] and [DelByName] write in place.  Two headers over one
    array would make a write through one visible through the other, so this
    module keeps the arrays and the [defaultFormats] objects in a store and
    gives every mutator its reads and writes. *)

Module Mem.

(** Addresses of arrays and of registries. *)
Abbreviation addr := nat (only parsing).

(** A slice header; [array = None] is the nil slice. *)
Record slice : Set := mkSlice { array : option addr; len : nat; cap : nat }.

Definition nil_slice : slice := mkSlice None 0 0.

(** A [defaultFormats] object: its field [data] and its normaliser. *)
Record registry : Type := mkRegistry { hdr : slice; norm : NameNormalizer }.

(** The backing arrays and the registries of a program, by address.  A slot
    of an array holds an entry, or [None] for the zero [knownFormat{}]. *)
Record world : Type := mkWorld {
  arrays : list (list (option knownFormat));
  registries : list registry;
}.

(** [s[0], ..., s[len(s)-1]] *)
Definition slots (w : world) (s : slice) : list (option knownFormat) :=
  match array s with
  | None => []
  | Some a => take (len s) (default [] (arrays w !! a))
  end.

(** The fields of a slot; the zero entry has the empty name and a nil type. *)
Definition slot_Name (o : option knownFormat) : string := from_option Name "" o.
Definition slot_OrigName (o : option knownFormat) : string := from_option OrigName "" o.
Definition slot_Type (o : option knownFormat) : option reflect.Type_ := Type_ <$> o.

(** [a[i] = x] *)
Definition store_slot (w : world) (a : addr) (i : nat) (x : option knownFormat) : world :=
  {| arrays := alter (fun arr => <[i := x]> arr) a (arrays w);
     registries := registries w |}.

(** A new backing array with the given slots. *)
Definition alloc (w : world) (arr : list (option knownFormat)) : world * addr :=
  ({| arrays := arrays w ++ [arr]; registries := registries w |}, length (arrays w)).

(** [f.data = d] for the registry at [r]. *)
Definition set_hdr (w : world) (r : addr) (d : slice) : world :=
  {| arrays := arrays w;
     registries := alter (fun f => {| hdr := d; norm := norm f |}) r (registries w) |}.

Section Growth.

(** The capacity the runtime picks for a slice that outgrows its array, from
    the old capacity and the length needed; [append] never takes less than
    the length needed. *)
Variable growslice : nat -> nat -> nat.

Definition new_cap (old needed : nat) : nat := Nat.max needed (growslice old needed).

(** [append(s, x)]: in place when the capacity allows, else into a new array. *)
Definition append1 (w : world) (s : slice) (x : knownFormat) : world * slice :=
  let grow :=
    let c := new_cap (cap s) (S (len s)) in
    let '(w', a') := alloc w (slots w s ++ Some x :: replicate (c - S (len s)) None) in
    (w', mkSlice (Some a') (S (len s)) c) in
  match array s with
  | Some a =>
      if decide (len s < cap s)
      then (store_slot w a (len s) (Some x), mkSlice (Some a) (S (len s)) (cap s))
      else grow
  | None => grow
  end.

(** [append([]knownFormat(nil), seeds...)]: nil for no seeds, else a new
    array that holds copies of the seeds. *)
Definition clone (w : world) (seeds : slice) : world * slice :=
  if decide (len seeds = 0) then (w, nil_slice)
  else
    let c := new_cap 0 (len seeds) in
    let '(w', a') := alloc w (slots w seeds ++ replicate (c - len seeds) None) in
    (w', mkSlice (Some a') (len seeds) c).

(** [NewSeededFormats(seeds, normalizer)]: the world with the new registry,
    and its address. *)
Definition NewSeededFormats (w : world) (seeds : slice)
    (normalizer : option NameNormalizer) : world * addr :=
  let normalizer := default DefaultNameNormalizer normalizer in
  let '(w1, d) := clone w seeds in
  ({| arrays := arrays w1;
      registries := registries w1 ++ [ {| hdr := d; norm := normalizer |} ] |},
   length (registries w1)).

(** [NewSeededFormats(src.data, normalizer)]: a registry seeded with the
    entries of the registry at [src]. *)
Definition NewSeededFrom (w : world) (src : addr)
    (normalizer : option NameNormalizer) : option (world * addr) :=
  f ← registries w !! src;
  Some (NewSeededFormats w (hdr f) normalizer).

(** [NewFormats()]: [NewSeededFormats(Default.data, nil)], for the registry
    [Default] at its address. *)
Definition NewFormats (w : world) (Default : addr) : option (world * addr) :=
  NewSeededFrom w Default None.

(** [Add]: the scan reads the slots in order; a match is overwritten where it
    stands, otherwise the entry is appended and [f.data] set to the result. *)
Definition Add (w : world) (r : addr) (name : string) (strfmt : Format)
    (validator : Validator) : option (bool * world) :=
  f ← registries w !! r;
  let nme := norm f name in
  let tpe := format_type strfmt in
  match list_find (fun o => slot_Name o = nme) (slots w (hdr f)) with
  | Some (i, o) =>
      a ← array (hdr f);
      Some (false,
            store_slot w a i
              (Some {| Name := slot_Name o; OrigName := slot_OrigName o;
                       Type_ := tpe; Validator_ := validator |}))
  | None =>
      let '(w', d) :=
        append1 w (hdr f)
          {| Name := nme; OrigName := name; Type_ := tpe; Validator_ := validator |} in
      Some (true, set_hdr w' r d)
  end.

End Growth.

(** [append(s[:i], s[i+1:]...)] on the array of [s], which has room: the
    slots after [i] move one to the left, the last one stays as it was. *)
Definition shift_left (w : world) (a : addr) (i n : nat) : world :=
  {| arrays :=
       alter (fun arr => take i arr ++ drop (S i) (take n arr) ++ drop (n - 1) arr)
             a (arrays w);
     registries := registries w |}.

(** The loop of [DelByName] and [DelByFormat]: release the first slot that
    matches, close the gap, shorten [f.data]. *)
Definition del_first (w : world) (r : addr) (p : option knownFormat -> Prop)
    `{!forall o, Decision (p o)} : option (bool * world) :=
  f ← registries w !! r;
  match list_find p (slots w (hdr f)) with
  | Some (i, _) =>
      a ← array (hdr f);
      let w1 := store_slot w a i None in
      let w2 := shift_left w1 a i (len (hdr f)) in
      Some (true, set_hdr w2 r (mkSlice (Some a) (len (hdr f) - 1) (cap (hdr f))))
  | None => Some (false, w)
  end.

Definition DelByName (w : world) (r : addr) (name : string) : option (bool * world) :=
  f ← registries w !! r;
  del_first w r (fun o => slot_Name o = norm f name).

Definition DelByFormat (w : world) (r : addr) (strfmt : Format) : option (bool * world) :=
  del_first w r (fun o => slot_Type o = Some (format_type strfmt)).

(** The registry at [r] as the list model sees it: its entries in order and
    its normaliser.  There is none when a slot in range is the zero entry. *)
Definition view (w : world) (r : addr) : option defaultFormats :=
  f ← registries w !! r;
  l ← mapM id (slots w (hdr f));
  Some {| data := l; normalizeName := norm f |}.

(** A slice header that fits the world: nil, or over an array of the world
    of its capacity, with entries in all slots below its length. *)
Definition slice_ok (w : world) (s : slice) : Prop :=
  match array s with
  | None => len s = 0 /\ cap s = 0
  | Some a =>
      exists arr, arrays w !! a = Some arr
                  /\ len s <= cap s
                  /\ cap s = length arr
                  /\ Forall is_Some (take (len s) arr)
  end.

(** The worlds the package builds: every registry has a fitting header, and
    no two registries share a backing array. *)
Definition wf (w : world) : Prop :=
  (forall r f, registries w !! r = Some f -> slice_ok w (hdr f))
  /\ (forall r1 r2 f1 f2 a,
        registries w !! r1 = Some f1 -> registries w !! r2 = Some f2 ->
        array (hdr f1) = Some a -> array (hdr f2) = Some a -> r1 = r2).

(** A mutation of the registry at an address. *)
Definition mutate (growslice : nat -> nat -> nat) (w : world)
    (step : addr * mutation) : option world :=
  match step.2 with
  | MAdd name strfmt validator => snd <$> Add growslice w step.1 name strfmt validator
  | MDelByName name => snd <$> DelByName w step.1 name
  | MDelByFormat strfmt => snd <$> DelByFormat w step.1 strfmt
  end.

(** A sequence of mutations, each of the registry it names. *)
Fixpoint run (growslice : nat -> nat -> nat) (w : world)
    (steps : list (addr * mutation)) : option world :=
  match steps with
  | [] => Some w
  | step :: rest => w' ← mutate growslice w step; run growslice w' rest
  end.

(** The mutations of a sequence that go to the registry at [r]. *)
Definition steps_on (r : addr) (steps : list (addr * mutation)) : list mutation :=
  snd <$> filter (fun step => step.1 = r) steps.

End Mem.

(** ** The start of the program, in memory *)

(** A growth policy for the examples: double the capacity. *)
Definition doubling (old needed : nat) : nat := 2 * old.

(** The world once [var Default = NewSeededFormats(nil, nil)] has run:
    [Default] is the registry at address 0. *)
Definition world_at_start : Mem.world :=
  (Mem.NewSeededFormats doubling {| Mem.arrays := []; Mem.registries := [] |}
     Mem.nil_slice None).1.

(** A world the package never builds, for contrast: two registries whose
    [data] are headers over one and the same array, as they would be had
    [NewSeededFormats] kept [seeds] instead of copying it. *)
Definition world_with_shared_array : Mem.world :=
  {| Mem.arrays :=
       [ [ Some {| Name := "currency"; OrigName := "currency";
                   Type_ := Currency_type; Validator_ := IsCurrency |} ] ];
     Mem.registries :=
       [ {| Mem.hdr := Mem.mkSlice (Some 0) 1 1; Mem.norm := DefaultNameNormalizer |};
         {| Mem.hdr := Mem.mkSlice (Some 0) 1 1; Mem.norm := DefaultNameNormalizer |} ] |}.

(** The world once the [init] of the currency format has run. *)
Definition world_after_init : Mem.world :=
  match Mem.Add doubling world_at_start 0 "currency" (VPtr (Currency "")) IsCurrency with
  | Some (_, w) => w
  | None => world_at_start
  end.

(** ** The registry under its mutex

    [defaultFormats] embeds a [sync.Mutex].  The methods of the [Registry]
    interface open with [f.Lock(); defer f.Unlock()]; the methods of
    [RegistryForGenerator] do not.  This module writes each method as the
    program of atomic steps it takes on the shared registry, and lets two
    goroutines run their programs in any interleaving. *)

(** The methods of the list model under names that stay free when [Sync]
    declares the programs of the same methods. *)
Abbreviation Spec_Add := Add (only parsing).
Abbreviation Spec_GetType := GetType (only parsing).
Abbreviation Spec_DelByName := DelByName (only parsing).
Abbreviation Spec_DelByFormat := DelByFormat (only parsing).
Abbreviation Spec_ContainsName := ContainsName (only parsing).
Abbreviation Spec_ContainsFormat := ContainsFormat (only parsing).
Abbreviation Spec_Validates := Validates (only parsing).
Abbreviation Spec_Parse := Parse (only parsing).

Module Sync.

(** What a method returns. *)
Inductive answer : Type :=
  | ABool (b : bool)
  | AType (t : option reflect.Type_)
  | AValue (r : result value)
  | AName (s : string)
  | ANames (l : list string)
  | ATypeNames (m : gmap string string)
  | AFormatNames (m : gmap string (list string))
  | ASchema (p : string * string).

(** The steps of a method: take or release the mutex, read the registry,
    store new entries, return. *)
Inductive prog : Type :=
  | Ret (a : answer)
  | Lock (k : prog)
  | Unlock (k : prog)
  | Read (k : defaultFormats -> prog)
  | Write (d : list knownFormat) (k : prog).

(** The methods of [Registry] (format.go, 235-377). *)

Definition Add (name : string) (strfmt : Format) (validator : Validator) : prog :=
  Lock (Read (fun f =>
    let nme := normalizeName f name in
    let tpe := format_type strfmt in
    match replace_first nme tpe validator (data f) with
    | Some d => Write d (Unlock (Ret (ABool false)))
    | None =>
        Write (data f ++ [ {| Name := nme; OrigName := name;
                              Type_ := tpe; Validator_ := validator |} ])
              (Unlock (Ret (ABool true)))
    end)).

Definition GetType (name : string) : prog :=
  Lock (Read (fun f => Unlock (Ret (AType (GetType f name))))).

Definition DelByName (name : string) : prog :=
  Lock (Read (fun f =>
    match remove_first (by_name (normalizeName f name)) (data f) with
    | Some d => Write d (Unlock (Ret (ABool true)))
    | None => Unlock (Ret (ABool false))
    end)).

Definition DelByFormat (strfmt : Format) : prog :=
  Lock (Read (fun f =>
    match remove_first (by_type (format_type strfmt)) (data f) with
    | Some d => Write d (Unlock (Ret (ABool true)))
    | None => Unlock (Ret (ABool false))
    end)).

Definition ContainsName (name : string) : prog :=
  Lock (Read (fun f => Unlock (Ret (ABool (ContainsName f name))))).

Definition ContainsFormat (strfmt : Format) : prog :=
  Lock (Read (fun f => Unlock (Ret (ABool (ContainsFormat f strfmt))))).

Definition Validates (name data_ : string) : prog :=
  Lock (Read (fun f => Unlock (Ret (ABool (Validates f name data_))))).

Definition Parse (method_set : reflect.Type_ -> option TextUnmarshaler)
    (name data_ : string) : prog :=
  Lock (Read (fun f => Unlock (Ret (AValue (Parse method_set f name data_))))).

(** The methods of [RegistryForGenerator] (format.go, 379-454): no [Lock]. *)

Definition Normalized (name : string) : prog :=
  Read (fun f => Ret (AName (Normalized f name))).

Definition Formats : prog := Read (fun f => Ret (ANames (Formats f))).

Definition Types : prog := Read (fun f => Ret (ANames (Types f))).

Definition FormatToTypes : prog := Read (fun f => Ret (ATypeNames (FormatToTypes f))).

Definition TypeToFormats : prog := Read (fun f => Ret (AFormatNames (TypeToFormats f))).

Definition ZeroExpressions : prog := Read (fun f => Ret (ATypeNames (ZeroExpressions f))).

Definition SchemaInfo (v : value) : prog := Ret (ASchema ("", "")).

(** A call of a method of [Registry]. *)
Inductive call : Type :=
  | CAdd (name : string) (strfmt : Format) (validator : Validator)
  | CGetType (name : string)
  | CDelByName (name : string)
  | CDelByFormat (strfmt : Format)
  | CContainsName (name : string)
  | CContainsFormat (strfmt : Format)
  | CValidates (name data_ : string)
  | CParse (method_set : reflect.Type_ -> option TextUnmarshaler) (name data_ : string).

(** A call of a method of [RegistryForGenerator]. *)
Inductive query : Type :=
  | QNormalized (name : string)
  | QFormats
  | QTypes
  | QFormatToTypes
  | QTypeToFormats
  | QZeroExpressions
  | QSchemaInfo (v : value).

Definition call_prog (c : call) : prog :=
  match c with
  | CAdd name strfmt validator => Add name strfmt validator
  | CGetType name => GetType name
  | CDelByName name => DelByName name
  | CDelByFormat strfmt => DelByFormat strfmt
  | CContainsName name => ContainsName name
  | CContainsFormat strfmt => ContainsFormat strfmt
  | CValidates name data_ => Validates name data_
  | CParse method_set name data_ => Parse method_set name data_
  end.

Definition query_prog (q : query) : prog :=
  match q with
  | QNormalized name => Normalized name
  | QFormats => Formats
  | QTypes => Types
  | QFormatToTypes => FormatToTypes
  | QTypeToFormats => TypeToFormats
  | QZeroExpressions => ZeroExpressions
  | QSchemaInfo v => SchemaInfo v
  end.


(** The shared registry: the mutex and the fields. *)
Record shared : Type := mkShared { locked : bool; reg : defaultFormats }.

(** [f.data = d] *)
Definition set_data (f : defaultFormats) (d : list knownFormat) : defaultFormats :=
  {| data := d; normalizeName := normalizeName f |}.

(** One step of one goroutine.  [Lock] waits while the mutex is taken;
    reads and writes of the fields never look at the mutex. *)
Inductive tstep : shared -> prog -> shared -> prog -> Prop :=
  | tstep_lock f k : tstep (mkShared false f) (Lock k) (mkShared true f) k
  | tstep_unlock f k : tstep (mkShared true f) (Unlock k) (mkShared false f) k
  | tstep_read l f k : tstep (mkShared l f) (Read k) (mkShared l f) (k f)
  | tstep_write l f d k : tstep (mkShared l f) (Write d k) (mkShared l (set_data f d)) k.

(** Two goroutines and the registry; either one takes the next step. *)
Definition config : Type := shared * prog * prog.

Inductive step : config -> config -> Prop :=
  | step_left s p q s' p' : tstep s p s' p' -> step (s, p, q) (s', p', q)
  | step_right s p q s' q' : tstep s q s' q' -> step (s, p, q) (s', p, q').

(** Any number of steps. *)
Definition steps : config -> config -> Prop := rtc step.

(** The rest of a method that holds the mutex: reads and writes, then
    [Unlock] and the return. *)
Inductive in_section : prog -> Prop :=
  | sec_unlock a : in_section (Unlock (Ret a))
  | sec_read k : (forall f, in_section (k f)) -> in_section (Read k)
  | sec_write d k : in_section k -> in_section (Write d k).

(** A method that takes the mutex first and holds it until it returns. *)
Definition holds_lock (p : prog) : Prop :=
  exists k, p = Lock k /\ in_section k.



End Sync.

(** ** The other methods of [Currency] (text, database value) *)

(** [func (d Currency) MarshalText() ([]byte, error)]: the bytes of [d], no
    error.  A [Currency] is given by its string. *)
Definition Currency_MarshalText (d : string) : result string := Ok d.

(** [func (d Currency) String() string] *)
Definition Currency_String (d : string) : string := d.

(** The text a value made by [Currency(s)], or a pointer to one, stands for. *)
Definition Currency_text (v : value) : option string :=
  match v with
  | VNamed t (VString s) | VPtr (VNamed t (VString s)) =>
      if decide (t = Currency_type) then Some s else None
  | _ => None
  end.

(** What a database driver hands to [Scan] and takes from [Value]: one of
    the types of [driver.Value], or nil.  [RFloat64] and [RTime] stand for a
    [float64] and a [time.Time], whose content [Scan] never looks at. *)
Inductive driver_value : Type :=
  | RNil
  | RInt64 (z : Z)
  | RFloat64
  | RBool (b : bool)
  | RBytes (b : string)
  | RString (s : string)
  | RTime.

(** [fmt.Errorf("cannot sql.Scan() strfmt.Currency from: %#v", v)] *)
Inductive scan_error : Type :=
  | CannotScan (v : driver_value).

(** [func (d *Currency) Scan(raw interface{}) error]: the new [*d] and the
    error, from the old [*d] and [raw]. *)
Definition Currency_Scan (d : string) (raw : driver_value) : string * option scan_error :=
  match raw with
  | RBytes v => (v, None)
  | RString v => (v, None)
  | RNil => ("", None)
  | v => (d, Some (CannotScan v))
  end.

(** [func (d Currency) Value() (driver.Value, error)] *)
Definition Currency_Value (d : string) : driver_value * option scan_error :=
  (RString d, None).

(** The keys of [isoCurrencies]. *)
Definition iso_codes : list string := ["AFA"; "EUR"; "USD"; "GBP"; "CHF"; "SGD"; "CAD"].

(** ** BSON values of [DateTime] (mongo.go)

    [DateTime] is a [time.Time].  Its BSON value is the 64-bit count of
    milliseconds since the epoch, in little-endian order. *)

(** Conversions between the 64-bit integer types: [uint64(x)] and
    [int64(x)] keep the low 64 bits. *)
Definition uint64 (z : Z) : Z := z mod 2 ^ 64.
Definition int64 (z : Z) : Z := (z + 2 ^ 63) mod 2 ^ 64 - 2 ^ 63.

(** [encoding/binary], [LittleEndian]; a byte is a number below 256. *)
Module binary.

(** [byte(v)] *)
Definition byte (v : Z) : Z := v mod 256.

(** [PutUint64(b, v)] on a buffer of eight bytes: [b[0] = byte(v)],
    [b[1] = byte(v >> 8)], ..., [b[7] = byte(v >> 56)]. *)
Definition PutUint64 (v : Z) : list Z :=
  [ byte v; byte (Z.shiftr v 8); byte (Z.shiftr v 16); byte (Z.shiftr v 24);
    byte (Z.shiftr v 32); byte (Z.shiftr v 40); byte (Z.shiftr v 48);
    byte (Z.shiftr v 56) ].

(** [Uint64(b)]: [uint64(b[0]) | uint64(b[1])<<8 | ... | uint64(b[7])<<56]. *)
Definition Uint64 (b : list Z) : Z :=
  let at_ i := nth i b 0%Z in
  Z.lor (Z.lor (Z.lor (Z.lor (Z.lor (Z.lor (Z.lor
    (at_ 0%nat) (Z.shiftl (at_ 1%nat) 8)) (Z.shiftl (at_ 2%nat) 16))
    (Z.shiftl (at_ 3%nat) 24)) (Z.shiftl (at_ 4%nat) 32)) (Z.shiftl (at_ 5%nat) 40))
    (Z.shiftl (at_ 6%nat) 48)) (Z.shiftl (at_ 7%nat) 56).

End binary.

(** The package [time], as far as the BSON value needs it.  A [time.Time]
    is given by its instant: the seconds since the epoch that [Unix()]
    returns and the nanoseconds within the second that [Nanosecond()]
    returns; its location plays no part here. *)
Module time.

Record Time_ : Set := mkTime { Unix_of : Z; Nanosecond : Z }.

(** [time.Time{}], the first of January of year 1. *)
Definition zero : Time_ := mkTime (-62135596800) 0.

(** [func Unix(sec int64, nsec int64) Time]: nanoseconds outside of
    [0, 1e9) are carried into the seconds. *)
Definition Unix (sec nsec : Z) : Time_ :=
  if (nsec <? 0)%Z || (10 ^ 9 <=? nsec)%Z then
    let n := (nsec ÷ 10 ^ 9)%Z in
    let sec := int64 (sec + n) in
    let nsec := int64 (nsec - int64 (n * 10 ^ 9)) in
    if (nsec <? 0)%Z
    then mkTime (int64 (sec - 1)) (int64 (nsec + 10 ^ 9))
    else mkTime sec nsec
  else mkTime sec nsec.

End time.

(** The type tags of BSON that the code names. *)
Module bson.
Definition TypeDateTime : Z := 9.
Definition TypeNull : Z := 10.
End bson.

(** [errors.New("bson date field length not exactly 8 bytes")] *)
Inductive bson_error : Set :=
  | DateLengthNot8.

(** [func (t DateTime) MarshalBSONValue() (bsontype.Type, []byte, error)];
    [NormalizeTimeForMarshal] is a variable of the package, a function on
    times. *)
Definition DateTime_MarshalBSONValue (NormalizeTimeForMarshal : time.Time_ -> time.Time_)
    (t : time.Time_) : Z * list Z * option bson_error :=
  let tNorm := NormalizeTimeForMarshal t in
  let i64 := int64 (int64 (time.Unix_of tNorm * 1000)
                    + int64 (time.Nanosecond tNorm) ÷ 10 ^ 6)%Z in
  let buf := binary.PutUint64 (uint64 i64) in
  (bson.TypeDateTime, buf, None).

(** [func (t *DateTime) UnmarshalBSONValue(tpe bsontype.Type, data []byte) error]:
    the new [*t] and the error. *)
Definition DateTime_UnmarshalBSONValue (t : time.Time_) (tpe : Z) (data : list Z)
    : time.Time_ * option bson_error :=
  if decide (tpe = bson.TypeNull) then (time.zero, None)
  else if decide (length data <> 8%nat) then (t, Some DateLengthNot8)
  else
    let i64 := int64 (binary.Uint64 data) in
    (time.Unix (i64 ÷ 1000)%Z (int64 (Z.rem i64 1000 * 1000000))%Z, None).

(** * Properties *)

Lemma DefaultNameNormalizer_nil : DefaultNameNormalizer "" = "".
Proof. reflexivity. Qed.

Lemma DefaultNameNormalizer_dash s :
  DefaultNameNormalizer (String dash s) = DefaultNameNormalizer s.
Proof. by destruct s. Qed.

Lemma DefaultNameNormalizer_other c s :
  c <> dash ->
  DefaultNameNormalizer (String c s) = String c (DefaultNameNormalizer s).
Proof.
  intros Hc. unfold DefaultNameNormalizer, strings.ReplaceAll.
  cbn [strings.replace_from String.prefix].
  destruct (Ascii.ascii_dec "-" c) as [<-|Hne]; [by destruct Hc|].
  reflexivity.
Qed.

Lemma DefaultNameNormalizer_dash_free s : dash_free (DefaultNameNormalizer s).
Proof.
  induction s as [|c s IH]; [exact I|].
  destruct (Ascii.ascii_dec c dash) as [->|Hc].
  - by rewrite DefaultNameNormalizer_dash.
  - rewrite DefaultNameNormalizer_other by done. by split.
Qed.

Lemma DefaultNameNormalizer_fixes s :
  dash_free s -> DefaultNameNormalizer s = s.
Proof.
  induction s as [|c s IH]; [done|]. intros [Hc Hs].
  rewrite DefaultNameNormalizer_other by done. by rewrite IH.
Qed.

Lemma DefaultNameNormalizer_idem s :
  DefaultNameNormalizer (DefaultNameNormalizer s) = DefaultNameNormalizer s.
Proof. apply DefaultNameNormalizer_fixes, DefaultNameNormalizer_dash_free. Qed.

Lemma dash_variant_refl s : dash_variant s s.
Proof. induction s; by constructor. Qed.

Lemma dash_variant_normalized s : dash_variant s (DefaultNameNormalizer s).
Proof.
  induction s as [|c s IH]; [constructor|].
  destruct (Ascii.ascii_dec c dash) as [->|Hc].
  - rewrite DefaultNameNormalizer_dash. by constructor.
  - rewrite DefaultNameNormalizer_other by done. by constructor.
Qed.

Lemma dash_variant_sym a b : dash_variant a b -> dash_variant b a.
Proof. induction 1; by constructor. Qed.

Lemma dash_variant_same_key a b :
  dash_variant a b -> DefaultNameNormalizer a = DefaultNameNormalizer b.
Proof.
  induction 1 as [|c a b _ IH|a b _ IH|a b _ IH].
  - reflexivity.
  - destruct (Ascii.ascii_dec c dash) as [->|Hc].
    + by rewrite !DefaultNameNormalizer_dash.
    + rewrite !DefaultNameNormalizer_other by done. by rewrite IH.
  - by rewrite DefaultNameNormalizer_dash.
  - by rewrite DefaultNameNormalizer_dash.
Qed.

Lemma dash_variant_of_same_key a b :
  DefaultNameNormalizer a = DefaultNameNormalizer b -> dash_variant a b.
Proof.
  revert b. induction a as [|c a IHa]; intros b.
  - induction b as [|d b IHb]; [constructor|]. intros H.
    destruct (Ascii.ascii_dec d dash) as [->|Hd].
    + rewrite DefaultNameNormalizer_dash in H. constructor. by apply IHb.
    + rewrite DefaultNameNormalizer_other in H by done. discriminate.
  - destruct (Ascii.ascii_dec c dash) as [->|Hc].
    + rewrite DefaultNameNormalizer_dash. intros H. constructor. by apply IHa.
    + rewrite DefaultNameNormalizer_other by done.
      induction b as [|d b IHb]; [discriminate|]. intros H.
      destruct (Ascii.ascii_dec d dash) as [->|Hd].
      * rewrite DefaultNameNormalizer_dash in H. constructor. by apply IHb.
      * rewrite DefaultNameNormalizer_other in H by done.
        injection H as -> H. constructor. by apply IHa.
Qed.

(** C1, as stated, fails: the default normaliser keeps letter case, so
    "date-time" and "dateTime" get the different keys "datetime" and
    "dateTime". *)
Lemma DefaultNameNormalizer_is_case_sensitive :
  DefaultNameNormalizer "date-time" = "datetime"
  /\ DefaultNameNormalizer "dateTime" = "dateTime"
  /\ DefaultNameNormalizer "date-time" <> DefaultNameNormalizer "dateTime".
Proof. repeat split. discriminate. Qed.

(** C1, amended: the default normaliser removes every dash and nothing else.
    Two names get the same key exactly when they differ only by where dashes
    stand; the key has no dash, and normalising it again changes nothing.  So
    "date-time" and "datetime" both get the key "datetime". *)
Theorem DefaultNameNormalizer_strips_dashes_only :
  (forall a b : string,
     dash_variant a b <-> DefaultNameNormalizer a = DefaultNameNormalizer b)
  /\ (forall n : string,
        dash_free (DefaultNameNormalizer n)
        /\ DefaultNameNormalizer (DefaultNameNormalizer n) = DefaultNameNormalizer n)
  /\ DefaultNameNormalizer "date-time" = DefaultNameNormalizer "datetime".
Proof.
  split; [|split].
  - intros a b. split.
    + apply dash_variant_same_key.
    + apply dash_variant_of_same_key.
  - intros n. split.
    + apply DefaultNameNormalizer_dash_free.
    + apply DefaultNameNormalizer_idem.
  - reflexivity.
Qed.

(** ** The registry: one entry per name *)

Lemma by_name_true nme v : by_name nme v = true <-> Name v = nme.
Proof. unfold by_name. apply bool_decide_eq_true. Qed.

Lemma by_name_false nme v : by_name nme v = false <-> Name v <> nme.
Proof. unfold by_name. apply bool_decide_eq_false. Qed.

Lemma existsb_by_name nme l :
  existsb (by_name nme) l = true <-> nme ∈ map Name l.
Proof.
  rewrite existsb_exists, list_elem_of_In, in_map_iff.
  split; intros (v & H1 & H2); exists v.
  - apply by_name_true in H2. done.
  - by rewrite by_name_true.
Qed.

Lemma find_by_name_None nme l :
  List.find (by_name nme) l = None <-> existsb (by_name nme) l = false.
Proof.
  induction l as [|v l IH]; simpl; [done|].
  destruct (by_name nme v); simpl; [|done]. split; discriminate.
Qed.

(** What the loop of [Add] does when it finds the name. *)
Lemma replace_first_Some nme tpe validator l l' :
  replace_first nme tpe validator l = Some l' ->
  exists l1 v l2,
    l = l1 ++ v :: l2
    /\ Forall (fun u => Name u <> nme) l1
    /\ Name v = nme
    /\ l' = l1 ++ {| Name := Name v; OrigName := OrigName v;
                     Type_ := tpe; Validator_ := validator |} :: l2.
Proof.
  revert l'. induction l as [|u l IH]; intros l'; simpl; [discriminate|].
  destruct (by_name nme u) eqn:Hu.
  - intros [= <-]. exists [], u, l. apply by_name_true in Hu. by repeat split.
  - destruct (replace_first nme tpe validator l) as [r|]; simpl; [|discriminate].
    intros [= <-]. destruct (IH r eq_refl) as (l1 & v & l2 & -> & Hl1 & Hv & ->).
    exists (u :: l1), v, l2. repeat split; try done.
    constructor; [by apply by_name_false|done].
Qed.

Lemma replace_first_None nme tpe validator l :
  replace_first nme tpe validator l = None <-> existsb (by_name nme) l = false.
Proof.
  induction l as [|u l IH]; simpl; [done|].
  destruct (by_name nme u); simpl; [split; discriminate|].
  rewrite <- IH. destruct (replace_first nme tpe validator l); simpl; split; done.
Qed.

Lemma find_by_name_app nme l1 v l2 :
  Forall (fun u => Name u <> nme) l1 -> Name v = nme ->
  List.find (by_name nme) (l1 ++ v :: l2) = Some v.
Proof.
  intros Hl1 Hv. induction Hl1 as [|u l1 Hu _ IH]; simpl.
  - apply by_name_true in Hv. by rewrite Hv.
  - apply by_name_false in Hu. by rewrite Hu.
Qed.

Lemma find_by_name_snoc nme l v :
  existsb (by_name nme) l = false -> Name v = nme ->
  List.find (by_name nme) (l ++ [v]) = Some v.
Proof.
  intros Hl Hv. apply find_by_name_app; [|done].
  apply Forall_forall. intros u Hu. apply by_name_false.
  destruct (by_name nme u) eqn:E; [|done].
  assert (existsb (by_name nme) l = true) as Hex; [|congruence].
  apply existsb_exists. exists u. split; [by apply list_elem_of_In|done].
Qed.

Lemma filter_name_absent nme (l : list knownFormat) :
  nme ∉ map Name l -> filter (fun v => Name v = nme) l = [].
Proof.
  induction l as [|u l IH]; simpl; [done|]. intros H.
  rewrite not_elem_of_cons in H. destruct H as [H1 H2].
  rewrite filter_cons_False by congruence. by apply IH.
Qed.

Lemma entry_count_unique f nme :
  unique_names f -> nme ∈ map Name (data f) -> entry_count f nme = 1.
Proof.
  unfold unique_names, entry_count. induction (data f) as [|u l IH]; simpl.
  - intros _ H. by apply elem_of_nil in H.
  - intros Hnd H. apply NoDup_cons in Hnd as [Hu Hnd].
    destruct (decide (Name u = nme)) as [<-|Hne].
    + rewrite filter_cons_True by done. simpl. by rewrite filter_name_absent.
    + rewrite filter_cons_False by done. apply IH; [done|].
      apply elem_of_cons in H as [H|H]; [congruence|done].
Qed.

Lemma Add_found f name strfmt validator d :
  replace_first (normalizeName f name) (format_type strfmt) validator (data f) = Some d ->
  Add f name strfmt validator = (false, {| data := d; normalizeName := normalizeName f |}).
Proof. intros H. unfold Add. by rewrite H. Qed.

Lemma Add_fresh f name strfmt validator :
  replace_first (normalizeName f name) (format_type strfmt) validator (data f) = None ->
  Add f name strfmt validator =
    (true,
     {| data := data f ++ [ {| Name := normalizeName f name; OrigName := name;
                               Type_ := format_type strfmt; Validator_ := validator |} ];
        normalizeName := normalizeName f |}).
Proof. intros H. unfold Add. by rewrite H. Qed.

Lemma Add_normalizeName f name strfmt validator :
  normalizeName (Add f name strfmt validator).2 = normalizeName f.
Proof. unfold Add. by destruct replace_first. Qed.

(** After [Add], the name resolves to an entry with the new type and the new
    validator, whatever the registry held before. *)
Lemma Add_find f name strfmt validator :
  exists v,
    List.find (by_name (normalizeName f name)) (data (Add f name strfmt validator).2) = Some v
    /\ Name v = normalizeName f name
    /\ Type_ v = format_type strfmt
    /\ Validator_ v = validator.
Proof.
  destruct (replace_first (normalizeName f name) (format_type strfmt) validator (data f))
    as [d|] eqn:E.
  - rewrite (Add_found _ _ _ _ _ E). simpl.
    apply replace_first_Some in E as (l1 & v & l2 & _ & Hl1 & Hv & ->).
    eexists. split; [by apply find_by_name_app|]. by simpl.
  - rewrite (Add_fresh _ _ _ _ E). simpl.
    apply replace_first_None in E.
    eexists. split; [by apply find_by_name_snoc|]. by simpl.
Qed.

Lemma Add_unique_names f name strfmt validator :
  unique_names f -> unique_names (Add f name strfmt validator).2.
Proof.
  unfold unique_names. intros Hnd.
  destruct (replace_first (normalizeName f name) (format_type strfmt) validator (data f))
    as [d|] eqn:E.
  - rewrite (Add_found _ _ _ _ _ E). simpl.
    apply replace_first_Some in E as (l1 & v & l2 & Hf & _ & _ & ->).
    rewrite Hf in Hnd. by rewrite map_app in *.
  - rewrite (Add_fresh _ _ _ _ E). simpl.
    apply replace_first_None in E.
    rewrite map_app. simpl. apply NoDup_app. split; [done|]. split.
    + intros x Hx Hin. apply list_elem_of_singleton in Hin as ->.
      apply existsb_by_name in Hx. congruence.
    + apply NoDup_singleton.
Qed.

Lemma Add_contains f name strfmt validator :
  normalizeName f name ∈ map Name (data (Add f name strfmt validator).2).
Proof.
  destruct (Add_find f name strfmt validator) as (v & Hv & Hn & _).
  apply find_some in Hv as [Hin _]. rewrite <- Hn.
  apply list_elem_of_fmap. exists v. split; [done|]. by apply list_elem_of_In.
Qed.

(** C3: [Add] on a name whose key the registry holds returns false, keeps
    the number of entries and overwrites type and validator of the entry in
    place; on a fresh name it returns true and appends one entry.  Either
    way the registry then holds exactly one entry for the key, the name
    resolves to the new type, [Validates] answers with the new validator
    alone, and no key occurs twice. *)
Theorem Add_replaces_or_appends (f : defaultFormats) (name : string)
    (strfmt : Format) (validator : Validator) :
  unique_names f ->
  let nme := normalizeName f name in
  let tpe := format_type strfmt in
  let wasNew := (Add f name strfmt validator).1 in
  let f' := (Add f name strfmt validator).2 in
  (ContainsName f name = true ->
     wasNew = false
     /\ length (data f') = length (data f)
     /\ entry_count f nme = 1
     /\ exists l1 v l2,
          data f = l1 ++ v :: l2
          /\ Name v = nme
          /\ data f' = l1 ++ {| Name := nme; OrigName := OrigName v;
                                Type_ := tpe; Validator_ := validator |} :: l2)
  /\ (ContainsName f name = false ->
        wasNew = true
        /\ length (data f') = S (length (data f))
        /\ entry_count f nme = 0
        /\ data f' = data f ++ [ {| Name := nme; OrigName := name;
                                    Type_ := tpe; Validator_ := validator |} ])
  /\ entry_count f' nme = 1
  /\ GetType f' name = Some tpe
  /\ (forall v : string, Validates f' name v = validator v)
  /\ unique_names f'.
Proof.
  intros Hnd nme tpe wasNew f'.
  assert (normalizeName f' = normalizeName f) as Hnorm
    by apply Add_normalizeName.
  destruct (Add_find f name strfmt validator) as (e & He & _ & Het & Hev).
  fold nme f' in He.
  split; [|split; [|split; [|split; [|split]]]].
  - intros Hc. unfold ContainsName in Hc. fold nme in Hc.
    destruct (replace_first nme tpe validator (data f)) as [d|] eqn:E.
    + subst wasNew f'. rewrite (Add_found _ _ _ _ _ E). simpl.
      apply replace_first_Some in E as (l1 & v & l2 & Hf & _ & Hv & ->).
      split; [done|]. split.
      { rewrite Hf, !length_app. done. }
      split.
      { apply entry_count_unique; [done|]. by apply existsb_by_name. }
      exists l1, v, l2. by rewrite Hv.
    + apply replace_first_None in E. congruence.
  - intros Hc. unfold ContainsName in Hc. fold nme in Hc.
    apply replace_first_None with (tpe := tpe) (validator := validator) in Hc as E.
    subst wasNew f'. rewrite (Add_fresh _ _ _ _ E). simpl.
    split; [done|]. split.
    { rewrite length_app. simpl. lia. }
    split; [|done].
    unfold entry_count. rewrite filter_name_absent; [done|].
    intros Hin. apply existsb_by_name in Hin. congruence.
  - apply entry_count_unique.
    + by apply Add_unique_names.
    + apply Add_contains.
  - unfold GetType. rewrite Hnorm. fold nme. rewrite He. simpl. by rewrite Het.
  - intros v. unfold Validates. rewrite Hnorm. fold nme. by rewrite He, Hev.
  - by apply Add_unique_names.
Qed.

(** A registry of the package right after the currency format registered
    itself, used to run the theorems on. *)
Lemma init_currency_data :
  data (init_currency Default_at_start) =
    [ {| Name := "currency"; OrigName := "currency";
         Type_ := Currency_type; Validator_ := IsCurrency |} ].
Proof. reflexivity. Qed.

Lemma init_currency_unique_names : unique_names (init_currency Default_at_start).
Proof. unfold unique_names. rewrite init_currency_data. simpl. apply NoDup_singleton. Defined.


(** [Add_replaces_or_appends] at work: registering "cur-rency" over the
    registered "currency" replaces it. *)
Lemma Add_replaces_or_appends_witness :
  let f := init_currency Default_at_start in
  let r := Add f "cur-rency" (VNamed (strfmt_type "Money" reflect.String) (VString ""))
               (fun _ => true) in
  let r' := Add f "tf2" (VPtr (VNamed (strfmt_type "tf2" reflect.String) (VString "")))
                (fun _ => false) in
  unique_names f
  /\ ContainsName f "cur-rency" = true
  /\ r.1 = false
  /\ length (data r.2) = 1
  /\ entry_count r.2 "currency" = 1
  /\ GetType r.2 "currency" = Some (strfmt_type "Money" reflect.String)
  /\ Validates r.2 "currency" "not a currency" = true
  /\ ContainsName f "tf2" = false
  /\ r'.1 = true
  /\ length (data r'.2) = 2
  /\ unique_names r'.2.
Proof.
  intros f r r'.
  pose proof (Add_replaces_or_appends f "cur-rency"
                (VNamed (strfmt_type "Money" reflect.String) (VString ""))
                (fun _ => true) init_currency_unique_names)
    as (Hold & _ & Hcount & _ & Hval & _).
  pose proof (Add_replaces_or_appends f "tf2"
                (VPtr (VNamed (strfmt_type "tf2" reflect.String) (VString "")))
                (fun _ => false) init_currency_unique_names)
    as (_ & Hnew & _ & _ & _ & Hunique).
  split; [exact init_currency_unique_names|].
  split; [reflexivity|].
  destruct (Hold eq_refl) as (Hret & Hlen & _).
  split; [exact Hret|]. split; [exact Hlen|].
  split; [exact Hcount|]. split; [reflexivity|].
  split; [exact (Hval "not a currency")|].
  destruct (Hnew eq_refl) as (Hret' & Hlen' & _).
  split; [reflexivity|]. split; [exact Hret'|]. split; [exact Hlen'|exact Hunique].
Defined.

(** Every registry a program can build has at most one entry per key. *)
Lemma remove_first_sublist p l l' :
  remove_first p l = Some l' -> sublist l' l.
Proof.
  revert l'. induction l as [|u l IH]; intros l'; simpl; [discriminate|].
  destruct (p u).
  - intros [= <-]. by apply sublist_cons.
  - destruct (remove_first p l) as [r|]; simpl; [|discriminate].
    intros [= <-]. apply sublist_skip. by apply IH.
Qed.

Lemma Forall_sublist_of {A} (P : A -> Prop) (l k : list A) :
  sublist l k -> Forall P k -> Forall P l.
Proof.
  induction 1 as [|x l k _ IH|x l k _ IH]; intros H; [done| |].
  - apply Forall_cons in H as [H1 H2]. apply Forall_cons. split; [done|]. by apply IH.
  - apply Forall_cons in H as [_ H2]. by apply IH.
Qed.

Lemma DelByName_data_sublist f name : sublist (data (DelByName f name).2) (data f).
Proof.
  unfold DelByName. destruct remove_first eqn:E; simpl; [|done].
  by apply remove_first_sublist in E.
Qed.

Lemma DelByFormat_data_sublist f strfmt : sublist (data (DelByFormat f strfmt).2) (data f).
Proof.
  unfold DelByFormat. destruct remove_first eqn:E; simpl; [|done].
  by apply remove_first_sublist in E.
Qed.

Lemma mutate_unique_names f m : unique_names f -> unique_names (mutate f m).
Proof.
  unfold unique_names. destruct m as [name strfmt validator|name|strfmt]; simpl.
  - apply Add_unique_names.
  - intros H. eapply sublist_NoDup; [exact H|apply (fmap_sublist Name), DelByName_data_sublist].
  - intros H. eapply sublist_NoDup; [exact H|apply (fmap_sublist Name), DelByFormat_data_sublist].
Qed.

Lemma reachable_unique_names f : reachable f -> unique_names f.
Proof.
  induction 1 as [normalizer|f m _ IH].
  - unfold unique_names. simpl. apply NoDup_nil_2.
  - by apply mutate_unique_names.
Qed.

Lemma mutate_normalizeName f m : normalizeName (mutate f m) = normalizeName f.
Proof.
  destruct m as [name strfmt validator|name|strfmt]; simpl.
  - apply Add_normalizeName.
  - unfold DelByName. by destruct remove_first.
  - unfold DelByFormat. by destruct remove_first.
Qed.

(** With an idempotent normaliser, as the default one is, every stored key
    is its own normal form. *)
Lemma mutate_names_normal f m :
  (forall n, normalizeName f (normalizeName f n) = normalizeName f n) ->
  names_normal f -> names_normal (mutate f m).
Proof.
  intros Hidem. unfold names_normal. rewrite mutate_normalizeName.
  destruct m as [name strfmt validator|name|strfmt]; simpl; intros H.
  - destruct (replace_first (normalizeName f name) (format_type strfmt) validator (data f))
      as [d|] eqn:E.
    + rewrite (Add_found _ _ _ _ _ E). simpl.
      apply replace_first_Some in E as (l1 & v & l2 & Hf & _ & _ & ->).
      rewrite Hf in H. apply Forall_app in H as [H1 H2].
      apply Forall_cons in H2 as [H2 H3].
      apply Forall_app. split; [done|]. by apply Forall_cons.
    + rewrite (Add_fresh _ _ _ _ E). simpl.
      apply Forall_app. split; [done|]. apply Forall_singleton. simpl. apply Hidem.
  - eapply Forall_sublist_of; [apply DelByName_data_sublist|exact H].
  - eapply Forall_sublist_of; [apply DelByFormat_data_sublist|exact H].
Qed.

Lemma reachable_names_normal f :
  reachable f -> normalizeName f = DefaultNameNormalizer -> names_normal f.
Proof.
  induction 1 as [normalizer|f m _ IH]; intros Hn.
  - by apply Forall_nil.
  - rewrite mutate_normalizeName in Hn. apply mutate_names_normal; [|by apply IH].
    intros n. rewrite Hn. apply DefaultNameNormalizer_idem.
Qed.

(** Under uniqueness, the scan by name finds the one entry with that key. *)
Lemma find_by_name_unique f e :
  unique_names f -> e ∈ data f ->
  List.find (by_name (Name e)) (data f) = Some e.
Proof.
  unfold unique_names. induction (data f) as [|u l IH]; simpl.
  - intros _ H. by apply elem_of_nil in H.
  - intros Hnd H. apply NoDup_cons in Hnd as [Hu Hnd].
    apply elem_of_cons in H as [->|H].
    + assert (by_name (Name u) u = true) as -> by by apply by_name_true. done.
    + assert (by_name (Name e) u = false) as ->.
      { apply by_name_false. intros Heq. apply Hu. rewrite Heq.
        by apply list_elem_of_fmap_2. }
      by apply IH.
Qed.

(** C4: [Validates] on a name whose key is not registered is false; on a
    registered name it is the registered validator applied to the value.
    [Validates] has no error result. *)
Theorem Validates_unknown_or_registered (f : defaultFormats) (name v : string) :
  (ContainsName f name = false -> Validates f name v = false)
  /\ (forall e : knownFormat,
        unique_names f -> e ∈ data f -> Name e = normalizeName f name ->
        Validates f name v = Validator_ e v).
Proof.
  split.
  - unfold ContainsName, Validates. intros H.
    apply find_by_name_None in H. by rewrite H.
  - intros e Hnd He Hn. unfold Validates. rewrite <- Hn.
    by rewrite find_by_name_unique.
Qed.

(** [Validates_unknown_or_registered] on the registry with "currency". *)
Lemma Validates_unknown_or_registered_witness :
  let f := init_currency Default_at_start in
  ContainsName f "money" = false
  /\ Validates f "money" "USD" = false
  /\ Validates f "currency" "USD" = IsCurrency "USD".
Proof.
  intros f.
  pose proof (Validates_unknown_or_registered f "money" "USD") as [Hunknown _].
  pose proof (Validates_unknown_or_registered f "currency" "USD") as [_ Hknown].
  split; [reflexivity|]. split; [exact (Hunknown eq_refl)|].
  apply (Hknown {| Name := "currency"; OrigName := "currency";
                   Type_ := Currency_type; Validator_ := IsCurrency |}).
  - exact init_currency_unique_names.
  - subst f. rewrite init_currency_data. apply list_elem_of_singleton. reflexivity.
  - reflexivity.
Defined.

(** ** Parse *)

Lemma TypeOf_Zero t : TypeOf (Zero t) = t.
Proof. unfold Zero. by destruct (reflect.Kind_of t). Qed.

Lemma TypeOf_New t : TypeOf (New t) = reflect.PtrTo t.
Proof. unfold New. simpl. by rewrite TypeOf_Zero. Qed.

(** C5: [Parse] on a name whose key is not registered fails with the
    unknown-format error for that name.  On a registered name, whose type has
    the text-decode method, it makes a pointer to a zero value of the
    registered type, calls [UnmarshalText] on it with the value, and returns
    the decoded pointer, or the error of [UnmarshalText] as it is.  (An entry
    whose type has no such method, which [Add] cannot register, gives the
    unknown-format error too.) *)
Theorem Parse_unknown_or_decodes
    (method_set : reflect.Type_ -> option TextUnmarshaler)
    (f : defaultFormats) (name v : string) :
  (ContainsName f name = false ->
     Parse method_set f name v = Err (InvalidTypeName name))
  /\ (forall (e : knownFormat) (UnmarshalText : TextUnmarshaler),
        unique_names f -> e ∈ data f -> Name e = normalizeName f name ->
        method_set (reflect.PtrTo (Type_ e)) = Some UnmarshalText ->
        Parse method_set f name v =
          match UnmarshalText (VPtr (Zero (Type_ e))) v with
          | (decoded, None) => Ok decoded
          | (_, Some err) => Err err
          end)
  /\ (forall e : knownFormat,
        unique_names f -> e ∈ data f -> Name e = normalizeName f name ->
        method_set (reflect.PtrTo (Type_ e)) = None ->
        Parse method_set f name v = Err (InvalidTypeName name)).
Proof.
  split; [|split].
  - unfold ContainsName, Parse. intros H.
    apply find_by_name_None in H. by rewrite H.
  - intros e um Hnd He Hn Hum. unfold Parse. rewrite <- Hn.
    rewrite find_by_name_unique by done. rewrite TypeOf_New, Hum.
    unfold New. by destruct (um (VPtr (Zero (Type_ e))) v) as [nw [err|]].
  - intros e Hnd He Hn Hum. unfold Parse. rewrite <- Hn.
    rewrite find_by_name_unique by done. by rewrite TypeOf_New, Hum.
Qed.

(** [Parse_unknown_or_decodes] on the registry with "currency". *)
Lemma Parse_unknown_or_decodes_witness :
  let f := init_currency Default_at_start in
  let methods := fun _ : reflect.Type_ => Some reject_empty in
  ContainsName f "money" = false
  /\ Parse methods f "money" "USD" = Err (InvalidTypeName "money")
  /\ Parse methods f "currency" "USD" = Ok (VPtr (Currency "USD"))
  /\ Parse methods f "currency" "" = Err (DecodeError "empty").
Proof.
  intros f methods.
  pose proof (Parse_unknown_or_decodes methods f "money" "USD") as (Hunknown & _ & _).
  pose proof (Parse_unknown_or_decodes methods f "currency" "USD") as (_ & Hknown & _).
  pose proof (Parse_unknown_or_decodes methods f "currency" "") as (_ & Hfail & _).
  assert ({| Name := "currency"; OrigName := "currency";
             Type_ := Currency_type; Validator_ := IsCurrency |} ∈ data f) as Hin.
  { subst f. rewrite init_currency_data. apply list_elem_of_singleton. reflexivity. }
  split; [reflexivity|]. split; [exact (Hunknown eq_refl)|]. split.
  - exact (Hknown _ reject_empty init_currency_unique_names Hin eq_refl eq_refl).
  - exact (Hfail _ reject_empty init_currency_unique_names Hin eq_refl eq_refl).
Defined.

Lemma init_currency_GetType D :
  GetType (init_currency D) "currency" = Some Currency_type.
Proof.
  unfold init_currency, GetType. rewrite Add_normalizeName.
  destruct (Add_find D "currency" (VPtr (Currency "")) IsCurrency) as (v & Hv & _ & Ht & _).
  rewrite Hv. simpl. rewrite Ht. reflexivity.
Qed.

(** C10: on a registry in which "currency" resolves to the [Currency] type,
    [Parse("currency", s)] succeeds for every string [s], with a pointer to
    [Currency(s)]: [UnmarshalText] of [*Currency] stores the text and returns
    no error, whatever [IsCurrency] says of [s]. *)
Theorem Parse_currency_never_fails
    (declared_elsewhere : reflect.Type_ -> option TextUnmarshaler)
    (f : defaultFormats) (s : string) :
  GetType f "currency" = Some Currency_type ->
  Parse (strfmt_method_set declared_elsewhere) f "currency" s = Ok (VPtr (Currency s)).
Proof.
  unfold GetType, Parse. intros H.
  destruct (List.find (by_name (normalizeName f "currency")) (data f)) as [v|];
    [|discriminate].
  injection H as ->. reflexivity.
Qed.

(** [Parse_currency_never_fails] right after the package's [init], on a
    string that is no currency. *)
Lemma Parse_currency_never_fails_witness :
  let f := init_currency Default_at_start in
  GetType f "currency" = Some Currency_type
  /\ IsCurrency "not a currency" = false
  /\ Validates f "currency" "not a currency" = false
  /\ Parse (strfmt_method_set (fun _ => None)) f "currency" "not a currency"
     = Ok (VPtr (Currency "not a currency")).
Proof.
  intros f. split; [reflexivity|]. split; [reflexivity|]. split; [reflexivity|].
  exact (Parse_currency_never_fails (fun _ => None) f "not a currency" eq_refl).
Defined.

(** ** The decode hook *)

Lemma GetType_own_name f u :
  unique_names f -> names_normal f -> u ∈ data f ->
  GetType f (Name u) = Some (Type_ u).
Proof.
  intros Hnd Hnn Hu. unfold GetType.
  unfold names_normal in Hnn. rewrite Forall_forall in Hnn.
  rewrite (Hnn u Hu). by rewrite find_by_name_unique.
Qed.

(** The loop of the hook stops at the first entry whose type is the target. *)
Lemma hook_range_find f to s l :
  (forall u, u ∈ l -> GetType f (Name u) = Some (Type_ u)) ->
  hook_range f to s l =
    match List.find (by_type to) l with
    | Some v => hook_switch (Name v) s
    | None => Return (Ok (VString s))
    end.
Proof.
  induction l as [|u l IH]; intros H; simpl; [done|].
  rewrite (H u) by apply list_elem_of_here. unfold by_type at 1.
  destruct (decide (Some to = Some (Type_ u))) as [Heq|Hne].
  - injection Heq as ->. by rewrite bool_decide_eq_true_2.
  - rewrite bool_decide_eq_false_2 by congruence.
    apply IH. intros w Hw. apply H. by apply list_elem_of_further.
Qed.




(** The hook hands the string back only when no entry has the target type. *)
Lemma hook_passes_string_without_entry f from to s :
  unique_names f -> names_normal f ->
  reflect.Kind_of from = reflect.String ->
  List.find (by_type to) (data f) = None ->
  MapStructureHookFunc f from to (VString s) = Return (Ok (VString s)).
Proof.
  intros Hnd Hnn Hk Hv. unfold MapStructureHookFunc.
  destruct (decide (reflect.Kind_of from <> reflect.String)) as [Hne|_]; [done|].
  rewrite hook_range_find by (intros u Hu; by apply GetType_own_name).
  by rewrite Hv.
Qed.



(** A value of string kind that is not a Go [string], such as a [Currency],
    is no case of the above: the hook fails to cast it. *)
Lemma hook_cast_error f to s :
  MapStructureHookFunc f Currency_type to (Currency s)
  = Return (Err (CastToString (Currency s))).
Proof. reflexivity. Qed.

(** ** The generator view *)

Lemma ZeroExpressions_mutate f ms :
  ZeroExpressions (foldl mutate f ms) = ZeroExpressions f.
Proof. reflexivity. Qed.

(** C8: [ZeroExpressions] is the literal table of the source, whatever the
    registry holds: after any sequence of [Add], [DelByName] and
    [DelByFormat] it is the same map, and registering a format whose type
    name is no key of the literal leaves that type without an entry. *)
Theorem ZeroExpressions_is_static (f : defaultFormats) (ms : list mutation) :
  ZeroExpressions (foldl mutate f ms) = list_to_map zero_expressions
  /\ ZeroExpressions (foldl mutate f ms) = ZeroExpressions f
  /\ (forall (name : string) (strfmt : Format) (validator : Validator),
        reflect.Name_of (format_type strfmt) ∉ zero_expressions.*1 ->
        ZeroExpressions (mutate (foldl mutate f ms) (MAdd name strfmt validator))
          !! reflect.Name_of (format_type strfmt) = None).
Proof.
  split; [reflexivity|]. split; [reflexivity|].
  intros name strfmt validator H. unfold ZeroExpressions.
  by apply not_elem_of_list_to_map_1.
Qed.

(** [ZeroExpressions_is_static] for the currency format: registered, and
    still without a zero expression. *)
Lemma ZeroExpressions_is_static_witness :
  let f := init_currency Default_at_start in
  ContainsFormat f (Currency "") = true
  /\ ZeroExpressions f = ZeroExpressions Default_at_start
  /\ ZeroExpressions f !! "Currency" = None
  /\ ZeroExpressions f !! "Date" = Some "Date{}".
Proof.
  intros f.
  pose proof (ZeroExpressions_is_static Default_at_start []) as (_ & _ & Habsent).
  split; [reflexivity|]. split; [reflexivity|]. split.
  - apply (Habsent "currency" (VPtr (Currency "")) IsCurrency).
    simpl. intros H. repeat (apply elem_of_cons in H as [H|H]; [discriminate H|]).
    by apply elem_of_nil in H.
  - vm_compute. reflexivity.
Defined.

(** ** Registries in memory *)

(** The loops of the list model, by the index of the first match. *)
Lemma replace_first_list_find nme tpe validator l :
  replace_first nme tpe validator l =
    match list_find (fun v => Name v = nme) l with
    | Some (i, v) =>
        Some (<[i := {| Name := Name v; OrigName := OrigName v;
                        Type_ := tpe; Validator_ := validator |}]> l)
    | None => None
    end.
Proof.
  induction l as [|u l IH]; [done|]. csimpl. unfold by_name.
  destruct (decide (Name u = nme)) as [Hu|Hu].
  - by rewrite bool_decide_eq_true_2.
  - rewrite bool_decide_eq_false_2 by done. rewrite IH.
    by destruct (list_find _ l) as [[i v]|].
Qed.

Lemma remove_first_list_find (p : knownFormat -> bool) (P : knownFormat -> Prop)
    `{!forall v, Decision (P v)} l :
  (forall v, p v = true <-> P v) ->
  remove_first p l =
    match list_find P l with
    | Some (i, _) => Some (delete i l)
    | None => None
    end.
Proof.
  intros Hp. induction l as [|u l IH]; [done|]. csimpl.
  destruct (decide (P u)) as [Hu|Hu].
  - apply Hp in Hu. by rewrite Hu.
  - destruct (p u) eqn:E; [by apply Hp in E|]. rewrite IH.
    by destruct (list_find _ l) as [[i v]|].
Qed.

Lemma mapM_id_Some {A} (xs : list (option A)) (l : list A) :
  mapM id xs = Some l <-> xs = Some <$> l.
Proof.
  rewrite mapM_Some. split.
  - induction 1 as [|x y xs l Hx _ IH]; [done|]. simpl in Hx. by subst.
  - intros ->. induction l; by constructor.
Qed.

Lemma alter_known {A} (g : A -> A) (l : list A) (i : nat) (x : A) :
  l !! i = Some x -> alter g i l = <[i := g x]> l.
Proof.
  revert i. induction l as [|y l IH]; intros [|i]; simpl; try done.
  - by intros [= ->].
  - intros H. f_equal. by apply IH.
Qed.

Lemma Forall_is_Some_fmap {A} (xs : list (option A)) :
  Forall is_Some xs <-> exists l, xs = Some <$> l.
Proof.
  split.
  - induction 1 as [|x xs [y ->] _ [l ->]]; [by exists []|]. by exists (y :: l).
  - intros [l ->]. induction l; constructor; eauto.
Qed.

Lemma view_Some w r pf :
  Mem.view w r = Some pf <->
  exists f, Mem.registries w !! r = Some f
            /\ Mem.slots w (Mem.hdr f) = Some <$> data pf
            /\ normalizeName pf = Mem.norm f.
Proof.
  unfold Mem.view. split.
  - intros H. destruct (Mem.registries w !! r) as [f|]; [|done]. simpl in H.
    destruct (mapM id (Mem.slots w (Mem.hdr f))) as [l|] eqn:E; [|done].
    injection H as <-. exists f. apply mapM_id_Some in E. done.
  - intros (f & -> & Hs & Hn). simpl.
    apply mapM_id_Some in Hs. rewrite Hs. simpl. destruct pf. simpl in *. by subst.
Qed.

(** In a well-formed world every registry has a view. *)
Lemma wf_view w r f :
  Mem.wf w -> Mem.registries w !! r = Some f ->
  exists l, Mem.slots w (Mem.hdr f) = Some <$> l
            /\ length l = Mem.len (Mem.hdr f)
            /\ Mem.view w r = Some {| data := l; normalizeName := Mem.norm f |}.
Proof.
  intros [Hok _] Hf. specialize (Hok r f Hf). unfold Mem.slice_ok in Hok.
  unfold Mem.slots. destruct (Mem.array (Mem.hdr f)) as [a|] eqn:Ha.
  - destruct Hok as (arr & Harr & Hle & Hcap & Hall).
    apply Forall_is_Some_fmap in Hall as [l Hl]. exists l.
    rewrite Harr. simpl. split; [done|]. split.
    + apply (f_equal length) in Hl. rewrite length_fmap, length_take in Hl. lia.
    + apply view_Some. exists f. unfold Mem.slots. rewrite Ha, Harr. done.
  - destruct Hok as [Hlen _]. exists []. split; [done|]. split; [done|].
    apply view_Some. exists f. unfold Mem.slots. by rewrite Ha.
Qed.

Lemma view_ext w w' r :
  Mem.registries w' !! r = Mem.registries w !! r ->
  (forall f, Mem.registries w !! r = Some f ->
             Mem.slots w' (Mem.hdr f) = Mem.slots w (Mem.hdr f)) ->
  Mem.view w' r = Mem.view w r.
Proof.
  intros Hr Hs. unfold Mem.view. rewrite Hr.
  destruct (Mem.registries w !! r) as [f|]; [|done]. simpl. by rewrite Hs.
Qed.

(** One registry changes hands: the world [w'] differs from [w] in the
    registry at [r] and in arrays that no other registry of [w] uses.  Then
    [w'] is well formed, and every other registry looks as before. *)
Lemma wf_transfer w w' r f' l' :
  Mem.wf w ->
  Mem.registries w' !! r = Some f' ->
  (forall r1, r1 <> r -> Mem.registries w' !! r1 = Mem.registries w !! r1) ->
  (forall r1 f1 a1,
     r1 <> r -> Mem.registries w !! r1 = Some f1 ->
     Mem.array (Mem.hdr f1) = Some a1 ->
     Mem.arrays w' !! a1 = Mem.arrays w !! a1
     /\ Mem.array (Mem.hdr f') <> Some a1) ->
  Mem.slice_ok w' (Mem.hdr f') ->
  Mem.slots w' (Mem.hdr f') = Some <$> l' ->
  Mem.wf w'
  /\ Mem.view w' r = Some {| data := l'; normalizeName := Mem.norm f' |}
  /\ (forall r1, r1 <> r -> Mem.view w' r1 = Mem.view w r1).
Proof.
  intros [Hok Hown] Hr Hothers Hkeep Hslice Hslots. split; [split|split].
  - intros r1 f1 Hf1. destruct (decide (r1 = r)) as [Heq|Hne].
    + subst r1. rewrite Hr in Hf1. by injection Hf1 as <-.
    + rewrite Hothers in Hf1 by done. specialize (Hok r1 f1 Hf1).
      unfold Mem.slice_ok in *. destruct (Mem.array (Mem.hdr f1)) as [a1|] eqn:Ha1; [|done].
      destruct (Hkeep r1 f1 a1 Hne Hf1 Ha1) as [-> _]. done.
  - intros r1 r2 f1 f2 a Hf1 Hf2 Ha1 Ha2.
    destruct (decide (r1 = r)) as [Heq1|Hne1], (decide (r2 = r)) as [Heq2|Hne2];
      [congruence|subst r1|subst r2|].
    + rewrite Hr in Hf1. injection Hf1 as <-. rewrite Hothers in Hf2 by done.
      by destruct (Hkeep r2 f2 a Hne2 Hf2 Ha2) as [_ []].
    + rewrite Hr in Hf2. injection Hf2 as <-. rewrite Hothers in Hf1 by done.
      by destruct (Hkeep r1 f1 a Hne1 Hf1 Ha1) as [_ []].
    + rewrite Hothers in Hf1, Hf2 by done. by eapply Hown.
  - apply view_Some. by exists f'.
  - intros r1 Hne. apply view_ext; [by apply Hothers|].
    intros f1 Hf1. unfold Mem.slots.
    destruct (Mem.array (Mem.hdr f1)) as [a1|] eqn:Ha1; [|done].
    by destruct (Hkeep r1 f1 a1 Hne Hf1 Ha1) as [-> _].
Qed.

(** What a registry of a well-formed world owns. *)
Lemma wf_array w r f a :
  Mem.wf w -> Mem.registries w !! r = Some f -> Mem.array (Mem.hdr f) = Some a ->
  exists arr, Mem.arrays w !! a = Some arr
              /\ Mem.len (Mem.hdr f) <= length arr
              /\ Mem.cap (Mem.hdr f) = length arr
              /\ Mem.slots w (Mem.hdr f) = take (Mem.len (Mem.hdr f)) arr.
Proof.
  intros [Hok _] Hf Ha. specialize (Hok r f Hf). unfold Mem.slice_ok in Hok.
  rewrite Ha in Hok. destruct Hok as (arr & Harr & Hle & Hcap & _).
  exists arr. unfold Mem.slots. rewrite Ha, Harr. simpl.
  split; [done|]. split; [lia|]. by split.
Qed.

Lemma wf_nil w r f :
  Mem.wf w -> Mem.registries w !! r = Some f -> Mem.array (Mem.hdr f) = None ->
  Mem.len (Mem.hdr f) = 0 /\ Mem.cap (Mem.hdr f) = 0 /\ Mem.slots w (Mem.hdr f) = [].
Proof.
  intros [Hok _] Hf Ha. specialize (Hok r f Hf). unfold Mem.slice_ok in Hok.
  rewrite Ha in Hok. unfold Mem.slots. rewrite Ha. by destruct Hok.
Qed.

(** The registry at [r] writes into its own array, in place. *)
Lemma wf_write_own w r f a arr (g : list (option knownFormat) -> list (option knownFormat))
    n' l' :
  Mem.wf w -> Mem.registries w !! r = Some f ->
  Mem.array (Mem.hdr f) = Some a -> Mem.arrays w !! a = Some arr ->
  length (g arr) = length arr -> n' <= length arr ->
  take n' (g arr) = Some <$> l' ->
  let w' := Mem.set_hdr
              {| Mem.arrays := alter g a (Mem.arrays w);
                 Mem.registries := Mem.registries w |}
              r (Mem.mkSlice (Some a) n' (Mem.cap (Mem.hdr f))) in
  Mem.wf w'
  /\ Mem.view w' r = Some {| data := l'; normalizeName := Mem.norm f |}
  /\ (forall r1, r1 <> r -> Mem.view w' r1 = Mem.view w r1).
Proof.
  intros Hwf Hf Ha Harr Hlen Hn Htake w'.
  destruct (wf_array w r f a Hwf Hf Ha) as (arr0 & Harr0 & _ & Hcap & _).
  rewrite Harr in Harr0. injection Harr0 as <-.
  apply (wf_transfer w w' r
           {| Mem.hdr := Mem.mkSlice (Some a) n' (Mem.cap (Mem.hdr f));
              Mem.norm := Mem.norm f |} l'); try done.
  - simpl. by rewrite list_lookup_alter_eq, Hf.
  - intros r1 Hne. simpl. by rewrite list_lookup_alter_ne.
  - intros r1 f1 a1 Hne Hf1 Ha1. simpl.
    assert (a1 <> a) as Hne_a.
    { intros ->. destruct Hwf as [_ Hown]. by apply Hne, (Hown r1 r f1 f a). }
    split; [by rewrite list_lookup_alter_ne|congruence].
  - unfold Mem.slice_ok. simpl. exists (g arr).
    rewrite list_lookup_alter_eq, Harr. simpl. split; [done|]. split; [lia|].
    split; [lia|]. apply Forall_is_Some_fmap. by exists l'.
  - unfold Mem.slots. simpl. by rewrite list_lookup_alter_eq, Harr.
Qed.

(** The registry at [r] moves to a new array. *)
Lemma wf_move w r f arr' n' l' :
  Mem.wf w -> Mem.registries w !! r = Some f ->
  n' <= length arr' -> take n' arr' = Some <$> l' ->
  let w' := Mem.set_hdr (Mem.alloc w arr').1 r
              (Mem.mkSlice (Some (length (Mem.arrays w))) n' (length arr')) in
  Mem.wf w'
  /\ Mem.view w' r = Some {| data := l'; normalizeName := Mem.norm f |}
  /\ (forall r1, r1 <> r -> Mem.view w' r1 = Mem.view w r1).
Proof.
  intros Hwf Hf Hn Htake w'.
  apply (wf_transfer w w' r
           {| Mem.hdr := Mem.mkSlice (Some (length (Mem.arrays w))) n' (length arr');
              Mem.norm := Mem.norm f |} l'); try done.
  - simpl. by rewrite list_lookup_alter_eq, Hf.
  - intros r1 Hne. simpl. by rewrite list_lookup_alter_ne.
  - intros r1 f1 a1 Hne Hf1 Ha1. simpl.
    destruct (wf_array w r1 f1 a1 Hwf Hf1 Ha1) as (arr1 & Harr1 & _).
    apply lookup_lt_Some in Harr1 as Hlt.
    split; [by rewrite lookup_app_l|]. intros [= Heq]. lia.
  - unfold Mem.slice_ok. simpl. exists arr'.
    rewrite list_lookup_middle by done. split; [done|]. split; [done|].
    split; [done|]. apply Forall_is_Some_fmap. by exists l'.
  - unfold Mem.slots. simpl. by rewrite list_lookup_middle.
Qed.

(** The registry at [r] writes into its array and keeps its header. *)
Lemma wf_write_keep w r f a arr (g : list (option knownFormat) -> list (option knownFormat)) l' :
  Mem.wf w -> Mem.registries w !! r = Some f ->
  Mem.array (Mem.hdr f) = Some a -> Mem.arrays w !! a = Some arr ->
  length (g arr) = length arr ->
  take (Mem.len (Mem.hdr f)) (g arr) = Some <$> l' ->
  let w' := {| Mem.arrays := alter g a (Mem.arrays w);
               Mem.registries := Mem.registries w |} in
  Mem.wf w'
  /\ Mem.view w' r = Some {| data := l'; normalizeName := Mem.norm f |}
  /\ (forall r1, r1 <> r -> Mem.view w' r1 = Mem.view w r1).
Proof.
  intros Hwf Hf Ha Harr Hlen Htake w'.
  destruct (wf_array w r f a Hwf Hf Ha) as (arr0 & Harr0 & Hle & Hcap & _).
  rewrite Harr in Harr0. injection Harr0 as <-.
  apply (wf_transfer w w' r f l'); try done.
  - intros r1 f1 a1 Hne Hf1 Ha1. simpl.
    assert (a1 <> a) as Hne_a.
    { intros ->. destruct Hwf as [_ Hown]. by apply Hne, (Hown r1 r f1 f a). }
    split; [by rewrite list_lookup_alter_ne|congruence].
  - unfold Mem.slice_ok. rewrite Ha. simpl. exists (g arr).
    rewrite list_lookup_alter_eq, Harr. simpl. split; [done|]. split; [lia|].
    split; [lia|]. apply Forall_is_Some_fmap. by exists l'.
  - unfold Mem.slots. rewrite Ha. simpl. by rewrite list_lookup_alter_eq, Harr.
Qed.

Lemma slots_nonempty_array w f i o :
  Mem.slots w (Mem.hdr f) !! i = Some o ->
  exists a, Mem.array (Mem.hdr f) = Some a /\ i < Mem.len (Mem.hdr f).
Proof.
  unfold Mem.slots. destruct (Mem.array (Mem.hdr f)) as [a|]; [|done].
  intros H. exists a. split; [done|]. by apply lookup_take_Some in H as [_ ?].
Qed.

Lemma list_find_slots (P : option knownFormat -> Prop) `{!forall o, Decision (P o)}
    (Q : knownFormat -> Prop) `{!forall v, Decision (Q v)} (l : list knownFormat) :
  (forall v, P (Some v) <-> Q v) ->
  list_find P (Some <$> l) = prod_map id Some <$> list_find Q l.
Proof.
  intros HPQ. rewrite list_find_fmap. f_equal. apply list_find_ext.
  intros v. apply HPQ.
Qed.

(** [Mem.Add] does to the registry at [r] what [Add] does to its view, and
    leaves every other registry as it is. *)
Lemma Add_refines growslice w r pf name strfmt validator :
  Mem.wf w -> Mem.view w r = Some pf ->
  exists w',
    Mem.Add growslice w r name strfmt validator
      = Some ((Add pf name strfmt validator).1, w')
    /\ Mem.wf w'
    /\ Mem.view w' r = Some (Add pf name strfmt validator).2
    /\ (forall r1, r1 <> r -> Mem.view w' r1 = Mem.view w r1).
Proof.
  intros Hwf Hview. apply view_Some in Hview as (f & Hf & Hslots & Hnorm).
  unfold Mem.Add, Add. rewrite Hf. simpl. rewrite Hnorm, Hslots.
  rewrite replace_first_list_find.
  rewrite (list_find_slots _ (fun v => Name v = Mem.norm f name)) by done.
  destruct (list_find (fun v => Name v = Mem.norm f name) (data pf)) as [[i v]|] eqn:E;
    simpl.
  - apply list_find_Some in E as (Hi & _ & _).
    assert (Mem.slots w (Mem.hdr f) !! i = Some (Some v)) as Hsi.
    { by rewrite Hslots, list_lookup_fmap, Hi. }
    destruct (slots_nonempty_array _ _ _ _ Hsi) as (a & Ha & Hlt).
    destruct (wf_array w r f a Hwf Hf Ha) as (arr & Harr & Hle & Hcap & Htake).
    rewrite Ha. simpl. eexists. split; [reflexivity|].
    apply (wf_write_keep w r f a arr); try done.
    + by rewrite length_insert.
    + rewrite take_insert_lt by done. rewrite <- Htake, Hslots.
      by rewrite list_fmap_insert.
  - apply list_find_None in E.
    set (new := {| Name := Mem.norm f name; OrigName := name;
                   Type_ := format_type strfmt; Validator_ := validator |}).
    destruct (wf_view w r f Hwf Hf) as (l0 & Hl0 & Hlen0 & _).
    rewrite Hslots in Hl0. apply (inj (fmap Some)) in Hl0. subst l0.
    assert (forall c,
      let arr' := Mem.slots w (Mem.hdr f) ++ Some new :: replicate (c - S (Mem.len (Mem.hdr f))) None in
      S (Mem.len (Mem.hdr f)) <= c ->
      length arr' = c /\ take (S (Mem.len (Mem.hdr f))) arr' = Some <$> (data pf ++ [new]))
      as Hgrow.
    { intros c arr' Hc. subst arr'. split.
      - rewrite length_app, Hslots, length_fmap. simpl. rewrite length_replicate. lia.
      - rewrite Hslots. rewrite fmap_app. simpl.
        rewrite cons_middle, app_assoc. apply take_app_length'.
        rewrite length_app, length_fmap. simpl. lia.
    }
    assert (S (Mem.len (Mem.hdr f))
            <= Mem.new_cap growslice (Mem.cap (Mem.hdr f)) (S (Mem.len (Mem.hdr f)))) as Hc
      by (unfold Mem.new_cap; lia).
    destruct (Hgrow _ Hc) as [Hlen' Htake'].
    pose proof (wf_move w r f _ (S (Mem.len (Mem.hdr f))) (data pf ++ [new]) Hwf Hf
                  ltac:(rewrite Hlen'; exact Hc) Htake') as Hmove.
    cbv zeta in Hmove. rewrite Hlen' in Hmove.
    unfold Mem.append1. fold new.
    destruct (Mem.array (Mem.hdr f)) as [a|] eqn:Ha.
    + destruct (wf_array w r f a Hwf Hf Ha) as (arr & Harr & Hle & Hcap & Htake).
      destruct (decide (Mem.len (Mem.hdr f) < Mem.cap (Mem.hdr f))) as [Hroom|Hfull].
      * eexists. split; [reflexivity|].
        apply (wf_write_own w r f a arr (fun arr => <[Mem.len (Mem.hdr f) := Some new]> arr));
          try done.
        -- by rewrite length_insert.
        -- lia.
        -- rewrite (take_S_r _ _ (Some new))
             by (apply list_lookup_insert_eq; lia).
           rewrite take_insert_ge by done. rewrite <- Htake, Hslots.
           by rewrite fmap_app.
      * eexists. split; [reflexivity|]. exact Hmove.
    + eexists. split; [reflexivity|]. exact Hmove.
Qed.

(** The loop of the two removals against [remove_first]. *)
Lemma del_first_refines w r pf (P : option knownFormat -> Prop)
    `{!forall o, Decision (P o)} (p : knownFormat -> bool) :
  (forall v, p v = true <-> P (Some v)) ->
  Mem.wf w -> Mem.view w r = Some pf ->
  let pure :=
    match remove_first p (data pf) with
    | Some d => (true, {| data := d; normalizeName := normalizeName pf |})
    | None => (false, pf)
    end in
  exists w',
    Mem.del_first w r P = Some (pure.1, w')
    /\ Mem.wf w'
    /\ Mem.view w' r = Some pure.2
    /\ (forall r1, r1 <> r -> Mem.view w' r1 = Mem.view w r1).
Proof.
  intros Hp Hwf Hview pure. subst pure.
  apply view_Some in Hview as Hv. destruct Hv as (f & Hf & Hslots & Hnorm).
  unfold Mem.del_first. rewrite Hf. simpl. rewrite Hslots.
  rewrite (remove_first_list_find p (fun v => P (Some v))) by done.
  rewrite (list_find_slots P (fun v => P (Some v))) by done.
  destruct (list_find (fun v => P (Some v)) (data pf)) as [[i v]|] eqn:E; simpl.
  - apply list_find_Some in E as (Hi & _ & _).
    assert (Mem.slots w (Mem.hdr f) !! i = Some (Some v)) as Hsi.
    { by rewrite Hslots, list_lookup_fmap, Hi. }
    destruct (slots_nonempty_array _ _ _ _ Hsi) as (a & Ha & Hlt).
    destruct (wf_array w r f a Hwf Hf Ha) as (arr & Harr & Hle & Hcap & Htake).
    rewrite Ha. simpl. eexists. split; [reflexivity|].
    unfold Mem.shift_left, Mem.store_slot. simpl.
    rewrite list_alter_alter_eq. rewrite Hnorm.
    set (n := Mem.len (Mem.hdr f)) in *.
    apply (wf_write_own w r f a arr); try done.
    + simpl. rewrite !length_app, length_take, length_drop, length_take, length_drop.
      rewrite !length_insert. lia.
    + lia.
    + simpl. rewrite app_assoc. rewrite take_app_length'.
      * rewrite take_insert_ge by done. rewrite take_insert_lt by done.
        rewrite drop_insert_lt by lia.
        rewrite <- Htake, Hslots.
        replace (take i arr) with (take i (Some <$> data pf)).
        -- by rewrite <- delete_take_drop, list_fmap_delete.
        -- rewrite <- Hslots, Htake, take_take. f_equal. lia.
      * rewrite length_app, length_take, length_drop, length_take.
        rewrite !length_insert. lia.
  - exists w. split; [done|]. split; [done|]. split; [|done].
    apply view_Some. by exists f.
Qed.

Lemma DelByName_refines w r pf name :
  Mem.wf w -> Mem.view w r = Some pf ->
  exists w',
    Mem.DelByName w r name = Some ((DelByName pf name).1, w')
    /\ Mem.wf w'
    /\ Mem.view w' r = Some (DelByName pf name).2
    /\ (forall r1, r1 <> r -> Mem.view w' r1 = Mem.view w r1).
Proof.
  intros Hwf Hview. apply view_Some in Hview as Hv. destruct Hv as (f & Hf & _ & Hnorm).
  unfold Mem.DelByName, DelByName. rewrite Hf. simpl. rewrite Hnorm.
  destruct (del_first_refines w r pf (fun o => Mem.slot_Name o = Mem.norm f name)
              (by_name (Mem.norm f name))) as (w' & Hdel & Hrest); try done.
  { intros v. apply by_name_true. }
  exists w'. rewrite Hdel. rewrite Hnorm in Hrest.
  by destruct (remove_first (by_name (Mem.norm f name)) (data pf)).
Qed.

Lemma DelByFormat_refines w r pf strfmt :
  Mem.wf w -> Mem.view w r = Some pf ->
  exists w',
    Mem.DelByFormat w r strfmt = Some ((DelByFormat pf strfmt).1, w')
    /\ Mem.wf w'
    /\ Mem.view w' r = Some (DelByFormat pf strfmt).2
    /\ (forall r1, r1 <> r -> Mem.view w' r1 = Mem.view w r1).
Proof.
  intros Hwf Hview. unfold Mem.DelByFormat, DelByFormat.
  destruct (del_first_refines w r pf
              (fun o => Mem.slot_Type o = Some (format_type strfmt))
              (by_type (format_type strfmt))) as (w' & Hdel & Hrest); try done.
  { intros v. unfold by_type. rewrite bool_decide_eq_true. simpl.
    split; [by intros ->|by intros [= ->]]. }
  exists w'. rewrite Hdel.
  by destruct (remove_first (by_type (format_type strfmt)) (data pf)).
Qed.

(** One mutation in memory is the same mutation on the view of its
    registry, and no change to the view of any other. *)
Lemma mutate_refines growslice w r pf m :
  Mem.wf w -> Mem.view w r = Some pf ->
  exists w',
    Mem.mutate growslice w (r, m) = Some w'
    /\ Mem.wf w'
    /\ Mem.view w' r = Some (mutate pf m)
    /\ (forall r1, r1 <> r -> Mem.view w' r1 = Mem.view w r1).
Proof.
  intros Hwf Hview. unfold Mem.mutate.
  destruct m as [name strfmt validator|name|strfmt]; simpl.
  - destruct (Add_refines growslice w r pf name strfmt validator Hwf Hview)
      as (w' & -> & Hrest). by exists w'.
  - destruct (DelByName_refines w r pf name Hwf Hview) as (w' & -> & Hrest).
    by exists w'.
  - destruct (DelByFormat_refines w r pf strfmt Hwf Hview) as (w' & -> & Hrest).
    by exists w'.
Qed.

(** Through any sequence of mutations, every registry goes through exactly
    the mutations addressed to it. *)
Lemma run_refines growslice steps : forall w,
  Mem.wf w ->
  Forall (fun step => is_Some (Mem.view w step.1)) steps ->
  exists w',
    Mem.run growslice w steps = Some w'
    /\ Mem.wf w'
    /\ (forall r pf, Mem.view w r = Some pf ->
          Mem.view w' r = Some (foldl mutate pf (Mem.steps_on r steps))).
Proof.
  induction steps as [|[r0 m] steps IH]; intros w Hwf Hsteps.
  - exists w. split; [done|]. split; [done|]. by intros r pf H.
  - apply Forall_cons in Hsteps as [[pf0 Hpf0] Hsteps]. simpl in Hpf0.
    destruct (mutate_refines growslice w r0 pf0 m Hwf Hpf0)
      as (w1 & Hstep & Hwf1 & Hown & Hframe).
    destruct (IH w1 Hwf1) as (w' & Hrun & Hwf' & Hviews).
    { eapply Forall_impl; [exact Hsteps|]. intros [r1 m1] Hr1. simpl in *.
      destruct (decide (r1 = r0)) as [->|Hne]; [by rewrite Hown|by rewrite Hframe]. }
    exists w'. split; [|split; [done|]].
    + simpl. rewrite Hstep. simpl. exact Hrun.
    + intros r pf Hpf. unfold Mem.steps_on.
      destruct (decide (r0 = r)) as [->|Hne].
      * rewrite filter_cons_True by done. simpl.
        rewrite Hpf in Hpf0. injection Hpf0 as <-. by apply Hviews.
      * rewrite filter_cons_False by done. apply Hviews.
        rewrite Hframe by done. exact Hpf.
Qed.

Lemma lookup_snoc_ne {A} (l : list A) (x : A) (i : nat) :
  i <> length l -> (l ++ [x]) !! i = l !! i.
Proof.
  intros Hne. destruct (decide (i < length l)) as [Hlt|Hge].
  - by apply lookup_app_l.
  - rewrite !lookup_ge_None_2; [done|lia|]. rewrite length_app. simpl. lia.
Qed.

(** [Mem.NewSeededFormats] makes a registry that holds the seeds and shares
    no array with any registry of the world. *)
Lemma NewSeededFormats_refines growslice w seeds normalizer l :
  Mem.wf w -> Mem.slice_ok w seeds -> Mem.slots w seeds = Some <$> l ->
  exists w',
    Mem.NewSeededFormats growslice w seeds normalizer = (w', length (Mem.registries w))
    /\ Mem.wf w'
    /\ Mem.view w' (length (Mem.registries w)) = Some (NewSeededFormats l normalizer)
    /\ (forall r1, r1 <> length (Mem.registries w) -> Mem.view w' r1 = Mem.view w r1).
Proof.
  intros Hwf Hok Hslots. unfold Mem.NewSeededFormats, Mem.clone.
  destruct (decide (Mem.len seeds = 0)) as [Hz|Hnz].
  - eexists. split; [reflexivity|].
    assert (l = []) as ->.
    { apply (fmap_nil_inv Some). rewrite <- Hslots. unfold Mem.slots.
      rewrite Hz. by destruct (Mem.array seeds). }
    apply (wf_transfer w _ (length (Mem.registries w))
             {| Mem.hdr := Mem.nil_slice;
                Mem.norm := default DefaultNameNormalizer normalizer |} []); try done.
    + simpl. by apply list_lookup_middle.
    + intros r1 Hne. simpl. by apply lookup_snoc_ne.
  - simpl.
    set (c := Mem.new_cap growslice 0 (Mem.len seeds)).
    set (arr' := Mem.slots w seeds ++ replicate (c - Mem.len seeds) None).
    assert (length (Mem.slots w seeds) = Mem.len seeds) as Hlen.
    { unfold Mem.slice_ok, Mem.slots in *. destruct (Mem.array seeds) as [a|].
      - destruct Hok as (arr & -> & Hle & Hcap & _). simpl.
        rewrite length_take. lia.
      - by destruct Hok as [-> _]. }
    assert (Mem.len seeds <= c) as Hc by (unfold c, Mem.new_cap; lia).
    assert (take (Mem.len seeds) arr' = Some <$> l) as Htake.
    { unfold arr'. rewrite <- Hslots. by apply take_app_length'. }
    eexists. split; [reflexivity|].
    apply (wf_transfer w _ (length (Mem.registries w))
             {| Mem.hdr := Mem.mkSlice (Some (length (Mem.arrays w))) (Mem.len seeds) c;
                Mem.norm := default DefaultNameNormalizer normalizer |} l); try done.
    + simpl. by apply list_lookup_middle.
    + intros r1 Hne. simpl. by apply lookup_snoc_ne.
    + intros r1 f1 a1 Hne Hf1 Ha1. simpl.
      destruct (wf_array w r1 f1 a1 Hwf Hf1 Ha1) as (arr1 & Harr1 & _).
      apply lookup_lt_Some in Harr1 as Hlt.
      split; [by rewrite lookup_app_l|]. intros [= Heq]. lia.
    + unfold Mem.slice_ok. simpl. exists arr'.
      rewrite list_lookup_middle by done. split; [done|]. split; [done|]. split.
      * unfold arr'. rewrite length_app, length_replicate. lia.
      * apply Forall_is_Some_fmap. by exists l.
    + unfold Mem.slots. simpl. by rewrite list_lookup_middle.
Qed.

Lemma NewSeededFrom_refines growslice w src pf normalizer :
  Mem.wf w -> Mem.view w src = Some pf ->
  exists w',
    Mem.NewSeededFrom growslice w src normalizer = Some (w', length (Mem.registries w))
    /\ src <> length (Mem.registries w)
    /\ Mem.wf w'
    /\ Mem.view w' (length (Mem.registries w)) = Some (NewSeededFormats (data pf) normalizer)
    /\ Mem.view w' src = Some pf.
Proof.
  intros Hwf Hview. apply view_Some in Hview as Hv.
  destruct Hv as (f & Hf & Hslots & Hnorm).
  destruct (NewSeededFormats_refines growslice w (Mem.hdr f) normalizer (data pf))
    as (w' & Hnew & Hwf' & Hv' & Hframe); try done.
  { destruct Hwf as [Hok _]. by apply (Hok src). }
  apply lookup_lt_Some in Hf as Hlt.
  exists w'. unfold Mem.NewSeededFrom. rewrite Hf. simpl. rewrite Hnew.
  split; [done|]. split; [lia|]. split; [done|]. split; [done|].
  rewrite Hframe by lia. done.
Qed.

(** C7: a registry seeded from the entries of another holds copies of them
    in an array of its own.  After its creation, whatever mutations ([Add],
    [DelByName], [DelByFormat]) go to any registries, the seeded registry
    and its source each hold what their own mutations made of them; the
    mutations of the one leave the entries of the other, and so every lookup
    and every query of the generator view on it, as they were. *)
Theorem seeded_registry_is_independent (growslice : nat -> nat -> nat)
    (w : Mem.world) (src : Mem.addr) (pf : defaultFormats)
    (normalizer : option NameNormalizer) :
  Mem.wf w -> Mem.view w src = Some pf ->
  exists (w0 : Mem.world) (new : Mem.addr),
    Mem.NewSeededFrom growslice w src normalizer = Some (w0, new)
    /\ new <> src
    /\ Mem.view w0 new = Some (NewSeededFormats (data pf) normalizer)
    /\ Mem.view w0 src = Some pf
    /\ forall steps : list (Mem.addr * mutation),
         Forall (fun step => is_Some (Mem.view w0 step.1)) steps ->
         exists w' : Mem.world,
           Mem.run growslice w0 steps = Some w'
           /\ Mem.view w' src = Some (foldl mutate pf (Mem.steps_on src steps))
           /\ Mem.view w' new
              = Some (foldl mutate (NewSeededFormats (data pf) normalizer)
                            (Mem.steps_on new steps))
           /\ (Mem.steps_on src steps = [] -> Mem.view w' src = Mem.view w0 src)
           /\ (Mem.steps_on new steps = [] -> Mem.view w' new = Mem.view w0 new).
Proof.
  intros Hwf Hview.
  destruct (NewSeededFrom_refines growslice w src pf normalizer Hwf Hview)
    as (w0 & Hnew & Hne & Hwf0 & Hvnew & Hvsrc).
  exists w0, (length (Mem.registries w)).
  split; [done|]. split; [done|]. split; [done|]. split; [done|].
  intros steps Hsteps.
  destruct (run_refines growslice steps w0 Hwf0 Hsteps) as (w' & Hrun & _ & Hviews).
  exists w'. split; [done|].
  pose proof (Hviews _ _ Hvsrc) as H1. pose proof (Hviews _ _ Hvnew) as H2.
  split; [done|]. split; [done|]. split.
  - intros Hnone. by rewrite H1, Hnone, Hvsrc.
  - intros Hnone. by rewrite H2, Hnone, Hvnew.
Qed.

Lemma world_after_init_ok :
  Mem.wf world_after_init
  /\ Mem.view world_after_init 0 = Some (init_currency Default_at_start).
Proof.
  assert (Mem.wf {| Mem.arrays := []; Mem.registries := [] |}) as Hwf0.
  { split; intros *; simpl; by rewrite lookup_nil. }
  destruct (NewSeededFormats_refines doubling _ Mem.nil_slice None [] Hwf0)
    as (w1 & Heq1 & Hwf1 & Hv1 & _); [done..|].
  assert (w1 = world_at_start) as -> by (unfold world_at_start; by rewrite Heq1).
  destruct (Add_refines doubling world_at_start 0 _ "currency" (VPtr (Currency ""))
              IsCurrency Hwf1 Hv1) as (w2 & Heq2 & Hwf2 & Hv2 & _).
  assert (w2 = world_after_init) as -> by (unfold world_after_init; by rewrite Heq2).
  split; [exact Hwf2|exact Hv2].
Defined.

(** [seeded_registry_is_independent] for [NewFormats()] after the program
    has started: the new registry and [Default] go their own ways. *)
Lemma seeded_registry_is_independent_witness :
  exists (w0 : Mem.world) (new : Mem.addr),
    Mem.NewFormats doubling world_after_init 0 = Some (w0, new)
    /\ new <> 0
    /\ Mem.view w0 new = Some (NewFormats (init_currency Default_at_start))
    /\ Mem.view w0 0 = Some (init_currency Default_at_start)
    /\ forall steps : list (Mem.addr * mutation),
         Forall (fun step => is_Some (Mem.view w0 step.1)) steps ->
         exists w' : Mem.world,
           Mem.run doubling w0 steps = Some w'
           /\ Mem.view w' 0
              = Some (foldl mutate (init_currency Default_at_start) (Mem.steps_on 0 steps))
           /\ Mem.view w' new
              = Some (foldl mutate (NewFormats (init_currency Default_at_start))
                            (Mem.steps_on new steps))
           /\ (Mem.steps_on 0 steps = [] -> Mem.view w' 0 = Mem.view w0 0)
           /\ (Mem.steps_on new steps = [] -> Mem.view w' new = Mem.view w0 new).
Proof.
  exact (seeded_registry_is_independent doubling world_after_init 0
           (init_currency Default_at_start) None
           (proj1 world_after_init_ok) (proj2 world_after_init_ok)).
Defined.

(** The same, run: after [NewFormats()], "tf2" is added to the copy and
    "currency" deleted from [Default]; the copy still has "currency", and
    [Default] never hears of "tf2". *)
Lemma NewFormats_then_mutations :
  exists w0 w',
    Mem.NewFormats doubling world_after_init 0 = Some (w0, 1)
    /\ Mem.run doubling w0
         [ (1, MAdd "tf2" (VString "") (fun _ => true)); (0, MDelByName "currency") ]
       = Some w'
    /\ (Formats <$> Mem.view w' 0) = Some []
    /\ (Formats <$> Mem.view w' 1) = Some ["currency"; "tf2"].
Proof. eexists _, _. split; [reflexivity|]. split; [reflexivity|]. split; reflexivity. Qed.

(** What the copy is for: were the array shared, a replacement through one
    registry would show in the other. *)
Lemma shared_array_shows_writes :
  exists w',
    Mem.Add doubling world_with_shared_array 0 "currency" (VString "") (fun _ => true)
      = Some (false, w')
    /\ (Types <$> Mem.view world_with_shared_array 1) = Some ["Currency"]
    /\ (Types <$> Mem.view w' 1) = Some ["string"].
Proof. eexists. split; [reflexivity|]. split; reflexivity. Qed.

(** ** The registry under its mutex *)














(** C9 does not hold of the code: every public operation should hold the
    mutex for its full duration, but [Formats], a query of the generator
    view, takes no lock.  It is no method that holds the lock, and it
    returns while an [Add] holds the mutex in the middle of its section. *)
Lemma Formats_takes_no_lock :
  ~ Sync.holds_lock (Sync.query_prog Sync.QFormats)
  /\ exists p : Sync.prog,
       Sync.in_section p
       /\ Sync.steps
            (Sync.mkShared false (init_currency Default_at_start),
             Sync.call_prog (Sync.CAdd "tf2" (VString "") (fun _ => true)),
             Sync.query_prog Sync.QFormats)
            (Sync.mkShared true (init_currency Default_at_start),
             p, Sync.Ret (Sync.ANames ["currency"])).
Proof.
  split.
  - intros (k & Hk & _). discriminate Hk.
  - eexists. split; [|].
    2:{ eapply rtc_l; [apply Sync.step_left; constructor|].
        eapply rtc_l; [apply Sync.step_left; constructor|].
        eapply rtc_l; [apply Sync.step_right; constructor|].
        apply rtc_refl. }
    simpl. repeat constructor.
Qed.

(** No query of the generator view holds the lock. *)
Lemma queries_take_no_lock q : ~ Sync.holds_lock (Sync.query_prog q).
Proof. intros (k & Hk & _). destruct q; discriminate Hk. Qed.

(** * Further properties of the registry *)

(** ** Lookups after [Add] and the removals *)

Lemma remove_first_Some p l l' :
  remove_first p l = Some l' ->
  exists l1 v l2,
    l = l1 ++ v :: l2 /\ Forall (fun u => p u = false) l1 /\ p v = true
    /\ l' = l1 ++ l2.
Proof.
  revert l'. induction l as [|u l IH]; intros l'; simpl; [discriminate|].
  destruct (p u) eqn:Hu.
  - intros [= <-]. by exists [], u, l.
  - destruct (remove_first p l) as [r|]; simpl; [|discriminate].
    intros [= <-]. destruct (IH r eq_refl) as (l1 & v & l2 & -> & Hl1 & Hv & ->).
    exists (u :: l1), v, l2. repeat split; try done. by constructor.
Qed.

Lemma remove_first_None p l :
  remove_first p l = None <-> existsb p l = false.
Proof.
  induction l as [|u l IH]; simpl; [done|].
  destruct (p u); simpl; [split; discriminate|].
  rewrite <- IH. destruct (remove_first p l); simpl; split; done.
Qed.

Lemma existsb_find {A} (p : A -> bool) (l : list A) :
  existsb p l = bool_decide (is_Some (List.find p l)).
Proof.
  induction l as [|u l IH]; simpl; [done|]. by destruct (p u).
Qed.

(** An entry of another key does not stand in the way of a scan by name. *)
Lemma find_by_name_skip k l1 v l2 :
  Name v <> k ->
  List.find (by_name k) (l1 ++ v :: l2) = List.find (by_name k) (l1 ++ l2).
Proof.
  intros Hv. induction l1 as [|u l1 IH]; simpl.
  - apply by_name_false in Hv. by rewrite Hv.
  - destruct (by_name k u); [done|apply IH].
Qed.

Lemma find_by_name_replace k l1 v v' l2 :
  Name v <> k -> Name v' <> k ->
  List.find (by_name k) (l1 ++ v' :: l2) = List.find (by_name k) (l1 ++ v :: l2).
Proof. intros Hv Hv'. by rewrite !find_by_name_skip. Qed.

Lemma find_by_name_snoc_ne k l v :
  Name v <> k -> List.find (by_name k) (l ++ [v]) = List.find (by_name k) l.
Proof. intros Hv. rewrite find_by_name_skip by done. by rewrite app_nil_r. Qed.

(** The four lookups by name read the registry through the scan for the
    key alone. *)
Lemma lookups_by_find method_set f g name :
  List.find (by_name (normalizeName g name)) (data g)
  = List.find (by_name (normalizeName f name)) (data f) ->
  ContainsName g name = ContainsName f name
  /\ GetType g name = GetType f name
  /\ (forall v, Validates g name v = Validates f name v)
  /\ (forall v, Parse method_set g name v = Parse method_set f name v).
Proof.
  intros H. unfold ContainsName, GetType, Validates, Parse.
  rewrite !existsb_find, H. by repeat split.
Qed.

Lemma Add_data_find f name strfmt validator k :
  k <> normalizeName f name ->
  List.find (by_name k) (data (Add f name strfmt validator).2)
  = List.find (by_name k) (data f).
Proof.
  intros Hk.
  destruct (replace_first (normalizeName f name) (format_type strfmt) validator (data f))
    as [d|] eqn:E.
  - rewrite (Add_found _ _ _ _ _ E). simpl.
    apply replace_first_Some in E as (l1 & v & l2 & -> & _ & Hv & ->).
    apply find_by_name_replace; simpl; congruence.
  - rewrite (Add_fresh _ _ _ _ E). simpl. apply find_by_name_snoc_ne. simpl. congruence.
Qed.

(** [Add] touches one key only: a name with another key is contained,
    resolved and validated as before. *)
Theorem Add_leaves_other_names (f : defaultFormats) (name : string)
    (strfmt : Format) (validator : Validator) (other : string) :
  normalizeName f other <> normalizeName f name ->
  let f' := (Add f name strfmt validator).2 in
  ContainsName f' other = ContainsName f other
  /\ GetType f' other = GetType f other
  /\ (forall v : string, Validates f' other v = Validates f other v)
  /\ Normalized f' other = Normalized f other.
Proof.
  intros Hk f'.
  assert (List.find (by_name (normalizeName f' other)) (data f')
          = List.find (by_name (normalizeName f other)) (data f)) as Hfind.
  { subst f'. rewrite Add_normalizeName. by apply Add_data_find. }
  destruct (lookups_by_find (fun _ => None) f f' other Hfind) as (Hc & Hg & Hv & _).
  split; [done|]. split; [done|]. split; [done|].
  unfold Normalized. subst f'. rewrite Add_normalizeName.
  assert (forall g n, existsb (fun format => bool_decide (n = Name format)) (data g)
                      = existsb (by_name n) (data g)) as Hflip.
  { intros g n. induction (data g) as [|u l IH]; simpl; [done|]. rewrite IH.
    f_equal. unfold by_name. apply bool_decide_ext. split; congruence. }
  rewrite !Hflip. unfold ContainsName in Hc. rewrite Add_normalizeName in Hc.
  by rewrite Hc.
Qed.

(** [Add_leaves_other_names]: registering "tf2" leaves "currency" alone. *)
Lemma Add_leaves_other_names_witness :
  let f := init_currency Default_at_start in
  let f' := (Add f "tf2" (VString "") (fun _ => true)).2 in
  GetType f' "cur-rency" = Some Currency_type
  /\ Validates f' "currency" "USD" = true
  /\ Validates f' "currency" "tf2" = false.
Proof.
  intros f f'.
  assert (normalizeName f "cur-rency" <> normalizeName f "tf2") as H1 by discriminate.
  assert (normalizeName f "currency" <> normalizeName f "tf2") as H2 by discriminate.
  destruct (Add_leaves_other_names f "tf2" (VString "") (fun _ => true) "cur-rency" H1)
    as (_ & Hg & _).
  destruct (Add_leaves_other_names f "tf2" (VString "") (fun _ => true) "currency" H2)
    as (_ & _ & Hv & _).
  split; [exact Hg|]. split; [exact (Hv "USD")|exact (Hv "tf2")].
Defined.

Lemma DelByName_normalizeName f name :
  normalizeName (DelByName f name).2 = normalizeName f.
Proof. unfold DelByName. by destruct remove_first. Qed.

Lemma DelByName_unique_names f name :
  unique_names f -> unique_names (DelByName f name).2.
Proof. apply (mutate_unique_names f (MDelByName name)). Qed.

(** [DelByName] says whether the name was there and takes its entry out:
    afterwards the name is not contained, resolves to no type and validates
    nothing, one entry less is held, and a name with another key is
    contained, resolved and validated as before.  An unknown name leaves the
    registry as it is. *)
Theorem DelByName_removes_the_name (f : defaultFormats) (name : string) :
  unique_names f ->
  let removed := (DelByName f name).1 in
  let f' := (DelByName f name).2 in
  removed = ContainsName f name
  /\ ContainsName f' name = false
  /\ GetType f' name = None
  /\ (forall v : string, Validates f' name v = false)
  /\ length (data f') = length (data f) - (if removed then 1 else 0)
  /\ (removed = false -> f' = f)
  /\ (forall other : string,
        normalizeName f other <> normalizeName f name ->
        ContainsName f' other = ContainsName f other
        /\ GetType f' other = GetType f other
        /\ forall v : string, Validates f' other v = Validates f other v)
  /\ unique_names f'.
Proof.
  intros Hnd removed f'.
  assert (normalizeName f' = normalizeName f) as Hnorm by apply DelByName_normalizeName.
  assert (unique_names f') as Hnd' by by apply DelByName_unique_names.
  subst removed f'. unfold DelByName in *.
  destruct (remove_first (by_name (normalizeName f name)) (data f)) as [d|] eqn:E.
  - apply remove_first_Some in E as (l1 & v & l2 & Hf & Hl1 & Hv & ->).
    apply by_name_true in Hv. simpl in *.
    assert (List.find (by_name (normalizeName f name)) (l1 ++ l2) = None) as Hgone.
    { apply find_by_name_None. destruct (existsb _ _) eqn:Hex; [|done].
      apply existsb_by_name in Hex. unfold unique_names in Hnd.
      rewrite Hf, map_app in Hnd. simpl in Hnd.
      apply NoDup_app in Hnd as (_ & Hdisj & Hnd2).
      apply NoDup_cons in Hnd2 as [Hnotin _].
      rewrite map_app in Hex. apply elem_of_app in Hex as [Hex|Hex].
      - destruct (Hdisj _ Hex). rewrite Hv. apply list_elem_of_here.
      - destruct Hnotin. by rewrite Hv. }
    split.
    { symmetry. unfold ContainsName. rewrite Hf. apply existsb_by_name.
      rewrite map_app. simpl. rewrite Hv. apply elem_of_app. right. apply list_elem_of_here. }
    split. { unfold ContainsName. simpl. by apply find_by_name_None. }
    split. { unfold GetType. simpl. by rewrite Hgone. }
    split. { intros w. unfold Validates. simpl. by rewrite Hgone. }
    split. { rewrite Hf, !length_app. simpl. lia. }
    split; [discriminate|]. split; [|done].
    intros other Hk.
    assert (List.find (by_name (normalizeName f other)) (l1 ++ l2)
            = List.find (by_name (normalizeName f other)) (data f)) as Hfind.
    { rewrite Hf. symmetry. apply find_by_name_skip. congruence. }
    destruct (lookups_by_find (fun _ => None)
                f {| data := l1 ++ l2; normalizeName := normalizeName f |} other Hfind)
      as (Hc & Hg & Hval & _).
    by repeat split.
  - apply remove_first_None in E as Hex. simpl.
    split; [by unfold ContainsName|]. split; [by unfold ContainsName|].
    apply find_by_name_None in Hex.
    split. { unfold GetType. by rewrite Hex. }
    split. { intros w. unfold Validates. by rewrite Hex. }
    split; [lia|]. by repeat split.
Qed.

(** [DelByName_removes_the_name]: deleting "cur-rency" removes "currency",
    a second deletion finds nothing. *)
Lemma DelByName_removes_the_name_witness :
  let f := init_currency Default_at_start in
  (DelByName f "cur-rency").1 = true
  /\ ContainsName (DelByName f "cur-rency").2 "currency" = false
  /\ length (data (DelByName f "cur-rency").2) = 0
  /\ (DelByName f "money").1 = false
  /\ (DelByName f "money").2 = f.
Proof.
  intros f.
  destruct (DelByName_removes_the_name f "cur-rency" init_currency_unique_names)
    as (Hr & _ & _ & _ & Hlen & _).
  destruct (DelByName_removes_the_name f "money" init_currency_unique_names)
    as (Hr' & _ & _ & _ & _ & Hsame & _).
  split; [exact Hr|]. split; [reflexivity|]. split; [exact Hlen|].
  split; [exact Hr'|]. exact (Hsame Hr').
Defined.

(** Registering a fresh name and deleting it again gives the registry back,
    entry for entry. *)
Theorem Add_then_DelByName_restores (f : defaultFormats) (name : string)
    (strfmt : Format) (validator : Validator) :
  ContainsName f name = false ->
  DelByName (Add f name strfmt validator).2 name = (true, f).
Proof.
  intros Hc. unfold ContainsName in Hc.
  apply replace_first_None with (tpe := format_type strfmt) (validator := validator) in Hc as E.
  rewrite (Add_fresh _ _ _ _ E). unfold DelByName. simpl.
  assert (forall l v, existsb (by_name (Name v)) l = false ->
                      remove_first (by_name (Name v)) (l ++ [v]) = Some l) as Hrm.
  { intros l v. induction l as [|u l IH]; simpl.
    - intros _. assert (by_name (Name v) v = true) as -> by by apply by_name_true. done.
    - destruct (by_name (Name v) u); [discriminate|]. intros H. by rewrite IH. }
  rewrite (Hrm (data f) {| Name := normalizeName f name |}) by done.
  by destruct f.
Qed.

(** [Add_then_DelByName_restores] on the registry with "currency". *)
Lemma Add_then_DelByName_restores_witness :
  DelByName (Add (init_currency Default_at_start) "tf-2" (VString "") (fun _ => true)).2 "tf2"
  = (true, init_currency Default_at_start).
Proof.
  exact (Add_then_DelByName_restores (init_currency Default_at_start) "tf-2"
           (VString "") (fun _ => true) eq_refl).
Defined.

Lemma replace_first_app nme tpe validator l1 e l2 :
  Forall (fun u => Name u <> nme) l1 -> Name e = nme ->
  replace_first nme tpe validator (l1 ++ e :: l2)
  = Some (l1 ++ {| Name := Name e; OrigName := OrigName e;
                   Type_ := tpe; Validator_ := validator |} :: l2).
Proof.
  intros Hl1 He. induction Hl1 as [|u l1 Hu _ IH]; simpl.
  - apply by_name_true in He. by rewrite He.
  - apply by_name_false in Hu. by rewrite Hu, IH.
Qed.

(** Registering twice under names of one key: the second [Add] reports a
    replacement, and the entry has the type and validator of the second
    registration and the original name of the first. *)
Theorem Add_again_replaces (f : defaultFormats) (name name' : string)
    (strfmt strfmt' : Format) (validator validator' : Validator) :
  normalizeName f name' = normalizeName f name ->
  Add (Add f name strfmt validator).2 name' strfmt' validator'
  = (false, (Add f name strfmt' validator').2).
Proof.
  intros Hkey.
  destruct (replace_first (normalizeName f name) (format_type strfmt) validator (data f))
    as [d|] eqn:E.
  - rewrite (Add_found _ _ _ _ _ E).
    apply replace_first_Some in E as (l1 & e & l2 & Hf & Hl1 & He & ->).
    unfold Add. simpl. rewrite Hkey, Hf.
    by rewrite !replace_first_app.
  - rewrite (Add_fresh _ _ _ _ E).
    apply replace_first_None in E.
    assert (replace_first (normalizeName f name) (format_type strfmt') validator' (data f)
            = None) as E' by by apply replace_first_None.
    unfold Add. simpl. rewrite Hkey, E'.
    rewrite replace_first_app; [done| |done].
    apply Forall_forall. intros u Hu. apply by_name_false.
    destruct (by_name (normalizeName f name) u) eqn:Hb; [|done].
    assert (existsb (by_name (normalizeName f name)) (data f) = true) as Hex; [|congruence].
    apply existsb_exists. exists u. split; [by apply list_elem_of_In|done].
Qed.

(** [Add_again_replaces]: "tf-2" and then "tf2". *)
Lemma Add_again_replaces_witness :
  let f := init_currency Default_at_start in
  let f' := (Add (Add f "tf-2" (VString "") (fun _ => true)).2 "tf2" (VInt 0)
                 (fun _ => false)).2 in
  (Add (Add f "tf-2" (VString "") (fun _ => true)).2 "tf2" (VInt 0) (fun _ => false)).1
  = false
  /\ (OrigName <$> data f') = ["currency"; "tf-2"]
  /\ GetType f' "tf2" = Some (TypeOf (VInt 0))
  /\ Validates f' "tf2" "x" = false.
Proof.
  intros f f'.
  pose proof (Add_again_replaces f "tf-2" "tf2" (VString "") (VInt 0)
                (fun _ => true) (fun _ => false) eq_refl) as H.
  subst f'. rewrite H. by repeat split.
Defined.

(** The number of entries registered with a type. *)
Lemma existsb_by_type tpe l :
  existsb (by_type tpe) l = true <-> 0 < length (filter (fun v => Type_ v = tpe) l).
Proof.
  induction l as [|u l IH]; simpl; [lia|]. unfold by_type at 1.
  destruct (decide (Type_ u = tpe)) as [Hu|Hu].
  - rewrite bool_decide_eq_true_2, filter_cons_True by done. simpl. split; [lia|done].
  - rewrite bool_decide_eq_false_2, filter_cons_False by done. simpl. apply IH.
Qed.

(** [DelByFormat] says whether an entry with the type of the instance was
    there, and removes the first such entry only: the other entries stay in
    their order, and a type registered under several names is still
    contained afterwards. *)
Theorem DelByFormat_removes_first_of_type (f : defaultFormats) (strfmt : Format) :
  let tpe := format_type strfmt in
  let removed := (DelByFormat f strfmt).1 in
  let f' := (DelByFormat f strfmt).2 in
  let registered := fun g => length (filter (fun v => Type_ v = tpe) (data g)) in
  removed = ContainsFormat f strfmt
  /\ (removed = false -> f' = f)
  /\ (removed = true ->
        exists l1 v l2,
          data f = l1 ++ v :: l2
          /\ Forall (fun u => Type_ u <> tpe) l1
          /\ Type_ v = tpe
          /\ data f' = l1 ++ l2)
  /\ registered f' = registered f - 1
  /\ (ContainsFormat f' strfmt = true <-> 2 <= registered f)
  /\ normalizeName f' = normalizeName f.
Proof.
  intros tpe removed f' registered. subst removed f' registered.
  unfold DelByFormat, ContainsFormat. fold tpe.
  destruct (remove_first (by_type tpe) (data f)) as [d|] eqn:E; simpl.
  - apply remove_first_Some in E as (l1 & v & l2 & Hf & Hl1 & Hv & ->).
    unfold by_type in Hv. apply bool_decide_eq_true in Hv.
    assert (Forall (fun u => Type_ u <> tpe) l1) as Hl1'.
    { eapply Forall_impl; [exact Hl1|]. intros u Hu. unfold by_type in Hu.
      by apply bool_decide_eq_false in Hu. }
    assert (filter (fun v => Type_ v = tpe) l1 = []) as Hnone.
    { clear -Hl1'. induction Hl1' as [|u l1 Hu _ IH]; [done|].
      by rewrite filter_cons_False. }
    rewrite Hf. rewrite !filter_app, filter_cons_True, Hnone by done. simpl.
    split.
    { symmetry. apply existsb_by_type. rewrite filter_app, filter_cons_True, Hnone by done.
      simpl. lia. }
    split; [discriminate|]. split; [intros _; by exists l1, v, l2|].
    split; [lia|]. split; [|done].
    rewrite existsb_by_type, filter_app, Hnone. simpl. lia.
  - apply remove_first_None in E as Hex. rewrite Hex.
    assert (length (filter (fun v => Type_ v = tpe) (data f)) = 0) as Hz.
    { destruct (length _) eqn:Hl; [done|].
      assert (existsb (by_type tpe) (data f) = true); [|congruence].
      apply existsb_by_type. lia. }
    split; [done|]. split; [done|]. split; [discriminate|].
    split; [lia|]. split; [|done]. rewrite Hz. split; [discriminate|lia].
Qed.

(** [DelByFormat_removes_first_of_type] with [Currency] registered under
    "currency" and "money": the first goes, the second stays. *)
Lemma DelByFormat_removes_first_of_type_witness :
  let f := (Add (init_currency Default_at_start) "money" (Currency "") IsCurrency).2 in
  let f' := (DelByFormat f (VPtr (Currency ""))).2 in
  (DelByFormat f (VPtr (Currency ""))).1 = true
  /\ Formats f' = ["money"]
  /\ ContainsFormat f' (Currency "") = true.
Proof.
  intros f f'.
  destruct (DelByFormat_removes_first_of_type f (VPtr (Currency "")))
    as (Hr & _ & _ & _ & Hstill & _).
  split; [exact Hr|]. split; [reflexivity|].
  apply Hstill. vm_compute. lia.
Defined.

(** ** The generator view against the lookups *)

Lemma foldl_snoc {A B} (g : A -> B) (acc : list B) (l : list A) :
  foldl (fun out x => out ++ [g x]) acc l = acc ++ map g l.
Proof.
  revert acc. induction l as [|x l IH]; intros acc; simpl.
  - by rewrite app_nil_r.
  - by rewrite IH, <- app_assoc.
Qed.

Lemma Formats_map f : Formats f = map Name (data f).
Proof. unfold Formats. by rewrite foldl_snoc. Qed.

Lemma Types_map f : Types f = map (fun v => reflect.Name_of (Type_ v)) (data f).
Proof. unfold Types. by rewrite (foldl_snoc (fun v => reflect.Name_of (Type_ v))). Qed.

Lemma FormatToTypes_fold (m : gmap string string) l k :
  NoDup (map Name l) ->
  foldl (fun lookup format => <[Name format := reflect.Name_of (Type_ format)]> lookup) m l
    !! k
  = match List.find (by_name k) l with
    | Some v => Some (reflect.Name_of (Type_ v))
    | None => m !! k
    end.
Proof.
  revert m. induction l as [|u l IH]; intros m Hnd; simpl; [done|].
  apply NoDup_cons in Hnd as [Hu Hnd]. rewrite IH by done. unfold by_name at 2.
  destruct (decide (Name u = k)) as [Hk|Hk].
  - rewrite bool_decide_eq_true_2 by done.
    assert (List.find (by_name k) l = None) as ->.
    { apply find_by_name_None. destruct (existsb _ _) eqn:Hex; [|done].
      apply existsb_by_name in Hex. destruct Hu. by rewrite Hk. }
    rewrite Hk. apply lookup_insert_eq.
  - rewrite bool_decide_eq_false_2 by done.
    destruct (List.find (by_name k) l); [done|]. by apply lookup_insert_ne.
Qed.

(** The generator view shows the registry the lookups see: [Formats] and
    [Types] list keys and type names entry by entry in registration order,
    a name is contained exactly when its key is in [Formats], and
    [FormatToTypes] maps the key of a name to the name of the type
    [GetType] resolves it to. *)
Theorem generator_view_matches_lookups (f : defaultFormats) :
  unique_names f ->
  Formats f = map Name (data f)
  /\ Types f = map (fun v => reflect.Name_of (Type_ v)) (data f)
  /\ (forall name : string,
        ContainsName f name = true <-> normalizeName f name ∈ Formats f)
  /\ (forall name : string,
        FormatToTypes f !! normalizeName f name = reflect.Name_of <$> GetType f name)
  /\ (forall k : string, is_Some (FormatToTypes f !! k) <-> k ∈ Formats f).
Proof.
  intros Hnd. split; [apply Formats_map|]. split; [apply Types_map|].
  split; [|split].
  - intros name. rewrite Formats_map. apply existsb_by_name.
  - intros name. unfold FormatToTypes, GetType. rewrite FormatToTypes_fold by done.
    by destruct (List.find _ _).
  - intros k. unfold FormatToTypes. rewrite FormatToTypes_fold by done.
    rewrite Formats_map, <- existsb_by_name, existsb_find.
    rewrite bool_decide_eq_true.
    destruct (List.find (by_name k) (data f)); simpl.
    + split; intros _; by eexists.
    + rewrite lookup_empty. split; intros [? ?]; done.
Qed.

(** [generator_view_matches_lookups] on the registry with "currency". *)
Lemma generator_view_matches_lookups_witness :
  let f := init_currency Default_at_start in
  Formats f = ["currency"]
  /\ Types f = ["Currency"]
  /\ FormatToTypes f !! "currency" = Some "Currency"
  /\ FormatToTypes f !! "money" = None.
Proof.
  intros f.
  destruct (generator_view_matches_lookups f init_currency_unique_names)
    as (Hf & Ht & _ & Hmap & _).
  split; [exact Hf|]. split; [exact Ht|].
  split; [exact (Hmap "cur-rency")|exact (Hmap "money")].
Defined.

Lemma TypeToFormats_fold (m : gmap string (list string)) l tn :
  foldl (fun lookup format =>
           let list := default [] (lookup !! reflect.Name_of (Type_ format)) in
           <[reflect.Name_of (Type_ format) := list ++ [Name format]]> lookup) m l !! tn
  = match map Name (filter (fun v => reflect.Name_of (Type_ v) = tn) l) with
    | [] => m !! tn
    | names => Some (default [] (m !! tn) ++ names)
    end.
Proof.
  revert m. induction l as [|u l IH]; intros m; simpl; [done|].
  rewrite IH. destruct (decide (reflect.Name_of (Type_ u) = tn)) as [Hu|Hu].
  - rewrite filter_cons_True by done. rewrite Hu, lookup_insert_eq. simpl.
    destruct (map Name (filter _ l)) as [|n names]; [done|].
    by rewrite <- app_assoc.
  - rewrite filter_cons_False by done. by rewrite lookup_insert_ne.
Qed.

(** [TypeToFormats] groups the keys by the name of their type: under a type
    name stand the keys of all entries of a type of that name, in
    registration order; a type name no entry has is no key of the map. *)
Theorem TypeToFormats_groups_by_type_name (f : defaultFormats) (tn : string) :
  TypeToFormats f !! tn
  = match map Name (filter (fun v => reflect.Name_of (Type_ v) = tn) (data f)) with
    | [] => None
    | names => Some names
    end.
Proof.
  unfold TypeToFormats. rewrite TypeToFormats_fold. rewrite lookup_empty. simpl.
  by destruct (map Name _).
Qed.

Lemma Normalized_ContainsName f name :
  Normalized f name = if ContainsName f name then normalizeName f name else "".
Proof.
  unfold Normalized, ContainsName.
  assert (forall l n, existsb (fun format => bool_decide (n = Name format)) l
                      = existsb (by_name n) l) as Hflip.
  { intros l n. induction l as [|u l IH]; simpl; [done|]. rewrite IH.
    f_equal. unfold by_name. apply bool_decide_ext. split; congruence. }
  by rewrite Hflip.
Qed.

(** [Normalized] answers with the key of a contained name and with the empty
    string for any other name.  The empty string is also the key of a
    format registered as "-" or "", so the answer does not tell such a
    format from an unknown one.  With the default normaliser the answer has
    no dash, and asking again with the answer gives the answer. *)
Theorem Normalized_is_key_or_empty (f : defaultFormats) (name : string) :
  (ContainsName f name = true -> Normalized f name = normalizeName f name)
  /\ (ContainsName f name = false -> Normalized f name = "")
  /\ (Normalized f name <> "" -> ContainsName f name = true)
  /\ (normalizeName f = DefaultNameNormalizer ->
        dash_free (Normalized f name)
        /\ Normalized f (Normalized f name) = Normalized f name).
Proof.
  rewrite Normalized_ContainsName.
  split; [by intros ->|]. split; [by intros ->|].
  split; [by destruct (ContainsName f name)|].
  intros Hn. destruct (ContainsName f name) eqn:Hc.
  - split; [rewrite Hn; apply DefaultNameNormalizer_dash_free|].
    rewrite Normalized_ContainsName.
    assert (normalizeName f (normalizeName f name) = normalizeName f name) as Hidem
      by (rewrite Hn; apply DefaultNameNormalizer_idem).
    unfold ContainsName in *. by rewrite Hidem, Hc.
  - split; [done|]. rewrite Normalized_ContainsName. rewrite Hn.
    by destruct (ContainsName f "").
Qed.

(** [Normalized_is_key_or_empty]: "-" is registered and contained, and
    [Normalized] answers as for the unknown "money". *)
Lemma Normalized_is_key_or_empty_witness :
  let f := (Add (init_currency Default_at_start) "-" (VString "") (fun _ => true)).2 in
  ContainsName f "-" = true
  /\ Normalized f "-" = ""
  /\ ContainsName f "money" = false
  /\ Normalized f "money" = ""
  /\ Normalized f "cur-rency" = "currency".
Proof.
  intros f.
  destruct (Normalized_is_key_or_empty f "-") as (H1 & _).
  destruct (Normalized_is_key_or_empty f "money") as (_ & H2 & _).
  destruct (Normalized_is_key_or_empty f "cur-rency") as (H3 & _).
  split; [reflexivity|]. split; [exact (H1 eq_refl)|]. split; [reflexivity|].
  split; [exact (H2 eq_refl)|exact (H3 eq_refl)].
Defined.

(** ** The decode hook, case by case *)










(** ** The currency format *)

Lemma upper_letter c :
  strings.is_letter c = true ->
  strings.is_letter (strings.upper c) = true
  /\ strings.upper (strings.upper c) = strings.upper c.
Proof. destruct c as [[] [] [] [] [] [] [] []]; vm_compute; by intros; split. Qed.

Lemma ToUpper_letters s :
  currencyMatcher_MatchString s = true ->
  currencyMatcher_MatchString (strings.ToUpper s) = true
  /\ strings.ToUpper (strings.ToUpper s) = strings.ToUpper s.
Proof.
  destruct s as [|a [|b [|c [|d s]]]]; simpl; try discriminate.
  intros H. apply andb_true_iff in H as [H Hc]. apply andb_true_iff in H as [Ha Hb].
  destruct (upper_letter a Ha) as [-> ->], (upper_letter b Hb) as [-> ->],
    (upper_letter c Hc) as [-> ->]. done.
Qed.

Lemma lookup_all_true (l : list string) (k : string) :
  match (list_to_map ((fun c => (c, true)) <$> l) : gmap string bool) !! k with
  | Some auth => auth
  | None => false
  end = true
  <-> k ∈ l.
Proof.
  induction l as [|c l IH]; simpl.
  - rewrite lookup_empty. split; [done|]. by intros ?%elem_of_nil.
  - rewrite elem_of_cons. destruct (decide (k = c)) as [->|Hne].
    + rewrite lookup_insert_eq. split; [by left|done].
    + rewrite lookup_insert_ne by done. rewrite IH. tauto.
Qed.

Lemma isoCurrencies_lookup k :
  match isoCurrencies !! k with Some auth => auth | None => false end = true
  <-> k ∈ iso_codes.
Proof. exact (lookup_all_true iso_codes k). Qed.

(** [IsCurrency] accepts exactly the strings of three ASCII letters that are
    one of the seven codes of the table in upper case; so it takes a code
    in any letter case, and its answer does not change when a string of
    three letters is put in upper case. *)
Theorem IsCurrency_accepts_codes_in_any_case (s : string) :
  (IsCurrency s = true <->
     currencyMatcher_MatchString s = true /\ strings.ToUpper s ∈ iso_codes)
  /\ (IsCurrency s = true -> String.length s = 3)
  /\ (currencyMatcher_MatchString s = true ->
        IsCurrency (strings.ToUpper s) = IsCurrency s).
Proof.
  assert (forall t, IsCurrency t = true <->
            currencyMatcher_MatchString t = true /\ strings.ToUpper t ∈ iso_codes) as Hiff.
  { intros t. unfold IsCurrency. destruct (currencyMatcher_MatchString t).
    - rewrite isoCurrencies_lookup. split; [by split | by intros [_ ?]].
    - split; [done | by intros [? _]]. }
  split; [apply Hiff|]. split.
  - intros [Hm _]%Hiff. by destruct s as [|a [|b [|c [|d s]]]].
  - intros Hm. destruct (ToUpper_letters s Hm) as [Hm' Hidem].
    apply eq_true_iff_eq. rewrite !Hiff, Hidem. tauto.
Qed.

(** [IsCurrency_accepts_codes_in_any_case] on "eUr". *)
Lemma IsCurrency_accepts_codes_in_any_case_witness :
  IsCurrency "eUr" = true /\ IsCurrency "EUR" = true
  /\ IsCurrency "EURO" = false /\ IsCurrency "EU1" = false /\ IsCurrency "XXX" = false.
Proof.
  destruct (IsCurrency_accepts_codes_in_any_case "eUr") as (_ & _ & Hcase).
  split; [reflexivity|]. split; [exact (Hcase eq_refl)|]. by repeat split.
Defined.

(** What [Parse] makes of a string for "currency" marshals back to the
    same string, and [String] gives it too: the text round trip of the
    format goes through the registry unchanged, for valid and invalid
    currencies alike. *)
Theorem Currency_text_round_trip
    (declared_elsewhere : reflect.Type_ -> option TextUnmarshaler)
    (f : defaultFormats) (s : string) :
  GetType f "currency" = Some Currency_type ->
  exists parsed : value,
    Parse (strfmt_method_set declared_elsewhere) f "currency" s = Ok parsed
    /\ Currency_text parsed = Some s
    /\ (Currency_MarshalText <$> Currency_text parsed) = Some (Ok s)
    /\ (Currency_String <$> Currency_text parsed) = Some s
    /\ (fst <$> (Currency_UnmarshalText (VPtr (Currency "")) <$> Currency_text parsed))
       = Some parsed.
Proof.
  intros H. exists (VPtr (Currency s)). split; [|by repeat split].
  unfold GetType, Parse in *.
  destruct (List.find (by_name (normalizeName f "currency")) (data f)) as [v|];
    [|discriminate].
  injection H as ->. reflexivity.
Qed.

(** [Currency_text_round_trip] right after the package's [init]. *)
Lemma Currency_text_round_trip_witness :
  exists parsed : value,
    Parse (strfmt_method_set (fun _ => None)) (init_currency Default_at_start)
      "currency" "usd" = Ok parsed
    /\ Currency_text parsed = Some "usd"
    /\ (Currency_MarshalText <$> Currency_text parsed) = Some (Ok "usd")
    /\ (Currency_String <$> Currency_text parsed) = Some "usd"
    /\ (fst <$> (Currency_UnmarshalText (VPtr (Currency "")) <$> Currency_text parsed))
       = Some parsed.
Proof.
  exact (Currency_text_round_trip (fun _ => None) (init_currency Default_at_start)
           "usd" eq_refl).
Defined.

(** [Scan] reads back what [Value] wrote.  It takes bytes and strings as
    they are and nil as the empty currency, without checking that they are
    a currency; any other value is refused, and then the receiver keeps
    what it held. *)
Theorem Currency_Scan_reads_Value (d old : string) (raw : driver_value) :
  Currency_Scan old (Currency_Value d).1 = (d, None)
  /\ (Currency_Value d).2 = None
  /\ Currency_Scan old RNil = ("", None)
  /\ Currency_Scan old (RBytes d) = Currency_Scan old (RString d)
  /\ ((Currency_Scan old raw).2 = None <->
        raw = RNil \/ (exists v, raw = RBytes v) \/ (exists v, raw = RString v))
  /\ ((Currency_Scan old raw).2 <> None ->
        Currency_Scan old raw = (old, Some (CannotScan raw))).
Proof.
  repeat split; try done.
  - destruct raw; simpl; eauto; discriminate.
  - intros [->|[[v ->]|[v ->]]]; done.
  - by destruct raw.
Qed.

(** ** What holds of every registry a program can build *)

Lemma mutate_keys_of_names f m :
  Forall (fun v => Name v = normalizeName f (OrigName v)) (data f) ->
  Forall (fun v => Name v = normalizeName f (OrigName v)) (data (mutate f m)).
Proof.
  destruct m as [name strfmt validator|name|strfmt]; simpl; intros H.
  - destruct (replace_first (normalizeName f name) (format_type strfmt) validator (data f))
      as [d|] eqn:E.
    + rewrite (Add_found _ _ _ _ _ E). simpl.
      apply replace_first_Some in E as (l1 & v & l2 & Hf & _ & _ & ->).
      rewrite Hf in H. apply Forall_app in H as [H1 H2].
      apply Forall_cons in H2 as [H2 H3].
      apply Forall_app. split; [done|]. by apply Forall_cons.
    + rewrite (Add_fresh _ _ _ _ E). simpl.
      apply Forall_app. split; [done|]. by apply Forall_singleton.
  - eapply Forall_sublist_of; [apply DelByName_data_sublist|exact H].
  - eapply Forall_sublist_of; [apply DelByFormat_data_sublist|exact H].
Qed.

Lemma reachable_keys_of_names f :
  reachable f -> Forall (fun v => Name v = normalizeName f (OrigName v)) (data f).
Proof.
  induction 1 as [normalizer|f m _ IH].
  - by apply Forall_nil.
  - rewrite mutate_normalizeName. by apply mutate_keys_of_names.
Qed.

(** In every registry built from an empty one by [Add], [DelByName] and
    [DelByFormat], whatever its normaliser: no two entries have the same
    key, the key of each entry is the normal form of the name it was first
    registered under, and each entry is the one that name resolves to.  With
    the default normaliser the keys have no dash and are their own normal
    form. *)
Theorem built_registry_invariants (f : defaultFormats) :
  reachable f ->
  unique_names f
  /\ Forall (fun v => Name v = normalizeName f (OrigName v)) (data f)
  /\ (forall v, v ∈ data f ->
        GetType f (OrigName v) = Some (Type_ v)
        /\ ContainsName f (OrigName v) = true
        /\ forall data_, Validates f (OrigName v) data_ = Validator_ v data_)
  /\ (normalizeName f = DefaultNameNormalizer ->
        names_normal f
        /\ Forall (fun v => dash_free (Name v) /\ dash_variant (OrigName v) (Name v))
                  (data f)).
Proof.
  intros Hr.
  pose proof (reachable_unique_names f Hr) as Hu.
  pose proof (reachable_keys_of_names f Hr) as Hk.
  split; [exact Hu|]. split; [exact Hk|]. split.
  - intros v Hv.
    assert (List.find (by_name (normalizeName f (OrigName v))) (data f) = Some v) as Hfind.
    { rewrite Forall_forall in Hk. rewrite <- (Hk v Hv). by apply find_by_name_unique. }
    unfold GetType, ContainsName, Validates. cbv zeta.
    rewrite existsb_find, Hfind. done.
  - intros Hn. split; [by apply reachable_names_normal|].
    eapply Forall_impl; [exact Hk|]. intros v Hv. simpl in Hv. rewrite Hv, Hn.
    split; [apply DefaultNameNormalizer_dash_free|apply dash_variant_normalized].
Qed.

(** [built_registry_invariants] on the default registry with "currency",
    then "date-time" added and "currency" removed. *)
Lemma built_registry_invariants_witness :
  let f := mutate (mutate (init_currency Default_at_start)
                     (MAdd "date-time" (VPtr (VNamed (strfmt_type "DateTime" reflect.Struct) VZero))
                        (fun _ => true)))
             (MDelByName "currency") in
  map Name (data f) = ["datetime"]
  /\ map OrigName (data f) = ["date-time"]
  /\ unique_names f
  /\ GetType f "date-time" = Some (strfmt_type "DateTime" reflect.Struct)
  /\ names_normal f.
Proof.
  intros f.
  assert (reachable f) as Hr.
  { apply reach_step. apply reach_step.
    exact (reach_step _ (MAdd "currency" (VPtr (Currency "")) IsCurrency) (reach_new None)). }
  destruct (built_registry_invariants f Hr) as (Hu & _ & Hget & Hdef).
  split; [reflexivity|]. split; [reflexivity|]. split; [exact Hu|].
  split; [reflexivity|]. exact (proj1 (Hdef eq_refl)).
Defined.

(** ** Deleting in memory *)

Lemma shift_left_lookup {A} (arr : list A) (z : A) (i n : nat) :
  i < n -> n <= length arr ->
  let arr1 := <[i := z]> arr in
  let arr' := take i arr1 ++ drop (S i) (take n arr1) ++ drop (n - 1) arr1 in
  length arr' = length arr
  /\ (forall j, j < i -> arr' !! j = arr !! j)
  /\ (forall j, i <= j -> S j < n -> arr' !! j = arr !! S j)
  /\ arr' !! (n - 1) = (if decide (S i = n) then Some z else arr !! (n - 1))
  /\ (forall j, n <= j -> arr' !! j = arr !! j).
Proof.
  intros Hi Hn arr1 arr'.
  assert (length arr1 = length arr) as Hl1 by apply length_insert.
  assert (length (take i arr1) = i) as Hl2 by (rewrite length_take; lia).
  assert (length (drop (S i) (take n arr1)) = n - S i) as Hl3
    by (rewrite length_drop, length_take; lia).
  assert (forall j, n - 1 <= j -> arr' !! j = arr1 !! j) as Htail.
  { intros j Hj. subst arr'.
    rewrite lookup_app_r by lia. rewrite lookup_app_r by lia.
    rewrite lookup_drop. f_equal. lia. }
  split; [|split; [|split; [|split]]].
  - subst arr'. rewrite !length_app, Hl2, Hl3, length_drop. lia.
  - intros j Hj. subst arr'. rewrite lookup_app_l by lia.
    rewrite lookup_take_lt by lia. subst arr1. by rewrite list_lookup_insert_ne by lia.
  - intros j Hij Hjn. subst arr'. rewrite lookup_app_r by lia.
    rewrite lookup_app_l by lia. rewrite lookup_drop.
    rewrite lookup_take_lt by lia. subst arr1.
    rewrite list_lookup_insert_ne by lia. f_equal. lia.
  - rewrite Htail by lia. subst arr1. destruct (decide (S i = n)) as [He|Hne].
    + replace (n - 1) with i by lia. apply list_lookup_insert_eq. lia.
    + by rewrite list_lookup_insert_ne by lia.
  - intros j Hj. rewrite Htail by lia. subst arr1.
    by rewrite list_lookup_insert_ne by lia.
Qed.

(** The loop of [DelByName] and [DelByFormat] works in place.  When it
    finds a match at index [i] of a registry of length [n], nothing is
    allocated and no other array is written; [f.data] stays on the same
    array with the same capacity and length [n - 1]; the entries after [i]
    move one slot to the left.  The slot released is the one at [i], which
    the move then overwrites: so slot [n - 1], now past the end of
    [f.data], still holds the old last entry, unless the entry deleted was
    the last one. *)
Theorem deletion_shifts_in_place (w : Mem.world) (r : nat) (f : Mem.registry)
    (a : nat) (arr : list (option knownFormat))
    (P : option knownFormat -> Prop) `{!forall o, Decision (P o)}
    (i : nat) (o : option knownFormat) :
  Mem.registries w !! r = Some f ->
  Mem.array (Mem.hdr f) = Some a ->
  Mem.arrays w !! a = Some arr ->
  Mem.len (Mem.hdr f) <= length arr ->
  list_find P (Mem.slots w (Mem.hdr f)) = Some (i, o) ->
  let n := Mem.len (Mem.hdr f) in
  exists w' arr',
    Mem.del_first w r P = Some (true, w')
    /\ Mem.registries w' !! r
       = Some {| Mem.hdr := Mem.mkSlice (Some a) (n - 1) (Mem.cap (Mem.hdr f));
                 Mem.norm := Mem.norm f |}
    /\ length (Mem.arrays w') = length (Mem.arrays w)
    /\ (forall a', a' <> a -> Mem.arrays w' !! a' = Mem.arrays w !! a')
    /\ Mem.arrays w' !! a = Some arr'
    /\ length arr' = length arr
    /\ (forall j, j < i -> arr' !! j = arr !! j)
    /\ (forall j, i <= j -> S j < n -> arr' !! j = arr !! S j)
    /\ arr' !! (n - 1) = (if decide (S i = n) then Some None else arr !! (n - 1))
    /\ (forall j, n <= j -> arr' !! j = arr !! j).
Proof.
  intros Hf Ha Harr Hn Hfind n.
  assert (i < n) as Hi.
  { apply list_find_Some in Hfind as (Hi & _). apply lookup_lt_Some in Hi.
    unfold Mem.slots in Hi. rewrite Ha, Harr in Hi. simpl in Hi.
    rewrite length_take in Hi. subst n. lia. }
  unfold Mem.del_first. rewrite Hf. simpl. rewrite Hfind, Ha. simpl.
  eexists _, _. split; [reflexivity|].
  unfold Mem.set_hdr, Mem.shift_left, Mem.store_slot. simpl.
  split; [by rewrite list_lookup_alter_eq, Hf|].
  split; [by rewrite !length_alter|].
  split; [intros a' Ha'; by rewrite !list_lookup_alter_ne by done|].
  split; [rewrite !list_lookup_alter_eq, Harr; reflexivity|].
  exact (shift_left_lookup arr None i n Hi Hn).
Qed.

(** [deletion_shifts_in_place] on a registry of three entries in an array
    of four slots, for [DelByName("currency")]: the array then holds
    "date", "uri", "uri" and the zero entry, under length two. *)
Lemma deletion_shifts_in_place_witness :
  let entry name := {| Name := name; OrigName := name;
                       Type_ := Currency_type; Validator_ := IsCurrency |} in
  let w := {| Mem.arrays := [ [ Some (entry "currency"); Some (entry "date");
                                Some (entry "uri"); None ] ];
              Mem.registries :=
                [ {| Mem.hdr := Mem.mkSlice (Some 0) 3 4;
                     Mem.norm := DefaultNameNormalizer |} ] |} in
  exists w',
    Mem.DelByName w 0 "currency" = Some (true, w')
    /\ (Mem.hdr <$> Mem.registries w' !! 0) = Some (Mem.mkSlice (Some 0) 2 4)
    /\ (fmap (M := list) Mem.slot_Name <$> Mem.arrays w' !! 0)
       = Some ["date"; "uri"; "uri"; ""].
Proof.
  intros entry w.
  assert (list_find (fun o => Mem.slot_Name o = DefaultNameNormalizer "currency")
            (Mem.slots w (Mem.mkSlice (Some 0) 3 4))
          = Some (0, Some (entry "currency"))) as Hfind by (vm_compute; reflexivity).
  destruct (deletion_shifts_in_place w 0
              {| Mem.hdr := Mem.mkSlice (Some 0) 3 4; Mem.norm := DefaultNameNormalizer |}
              0 [ Some (entry "currency"); Some (entry "date"); Some (entry "uri"); None ]
              (fun o => Mem.slot_Name o = DefaultNameNormalizer "currency")
              0 (Some (entry "currency"))
              eq_refl eq_refl eq_refl (le_S _ _ (le_n 3)) Hfind)
    as (w' & arr' & Hdel & Hreg & _).
  exists w'. split; [exact Hdel|].
  injection Hdel as <-. split; reflexivity.
Defined.

(** ** Two goroutines never block each other for good *)




(** ** The BSON value of a [DateTime] *)

Lemma byte_bit u k n :
  (0 <= k)%Z -> (0 <= n)%Z ->
  Z.testbit (Z.shiftl (binary.byte (Z.shiftr u k)) k) n
  = Z.testbit u n && (k <=? n)%Z && (n <? k + 8)%Z.
Proof.
  intros Hk Hn. rewrite Z.shiftl_spec by done. unfold binary.byte.
  destruct (Z.leb_spec k n) as [Hkn|Hkn].
  - change 256%Z with (2 ^ 8)%Z. destruct (Z.ltb_spec n (k + 8)) as [Hlt|Hge].
    + rewrite Z.mod_pow2_bits_low by lia. rewrite Z.shiftr_spec by lia.
      replace (n - k + k)%Z with n by lia. by rewrite !andb_true_r.
    + rewrite Z.mod_pow2_bits_high by lia. by rewrite andb_false_r.
  - rewrite Z.testbit_neg_r by lia. by rewrite andb_false_r.
Qed.

Lemma Uint64_PutUint64 u :
  (0 <= u < 2 ^ 64)%Z -> binary.Uint64 (binary.PutUint64 u) = u.
Proof.
  intros Hu. unfold binary.Uint64, binary.PutUint64. cbn [nth].
  apply Z.bits_inj'. intros n Hn.
  rewrite <- (Z.shiftl_0_r (binary.byte u)).
  rewrite <- (Z.shiftr_0_r u) at 1.
  rewrite !Z.lor_spec, !byte_bit by lia.
  destruct (Z.ltb_spec n 64) as [Hlt|Hge].
  - destruct (Z.testbit u n); [|reflexivity]. simpl.
    assert (n < 8 \/ 8 <= n < 16 \/ 16 <= n < 24 \/ 24 <= n < 32 \/ 32 <= n < 40
            \/ 40 <= n < 48 \/ 48 <= n < 56 \/ 56 <= n < 64)%Z as Hcase by lia.
    repeat match goal with
           | |- context [(?a <=? ?b)%Z] =>
               first [ rewrite (proj2 (Z.leb_le a b)) by lia
                     | rewrite (proj2 (Z.leb_gt a b)) by lia ]
           | |- context [(?a <? ?b)%Z] =>
               first [ rewrite (proj2 (Z.ltb_lt a b)) by lia
                     | rewrite (proj2 (Z.ltb_ge a b)) by lia ]
           | H : _ \/ _ |- _ => destruct H as [H|H]
           end; reflexivity.
  - assert (Z.testbit u n = false) as ->.
    { rewrite <- (Z.mod_small u (2 ^ 64)) by lia. apply Z.mod_pow2_bits_high. lia. }
    reflexivity.
Qed.

Lemma int64_of_uint64 z : int64 (uint64 z) = int64 z.
Proof.
  unfold int64, uint64. f_equal.
  rewrite Z.add_mod_idemp_l by lia. reflexivity.
Qed.

Lemma int64_small z : (- 2 ^ 63 <= z < 2 ^ 63)%Z -> int64 z = z.
Proof. intros H. unfold int64. rewrite Z.mod_small by lia. lia. Qed.

Lemma int64_add_l a b : int64 (int64 a + b) = int64 (a + b).
Proof.
  unfold int64. f_equal.
  replace ((a + 2 ^ 63) mod 2 ^ 64 - 2 ^ 63 + b + 2 ^ 63)%Z
    with ((a + 2 ^ 63) mod 2 ^ 64 + b)%Z by lia.
  rewrite Z.add_mod_idemp_l by lia. f_equal. lia.
Qed.

(** The seconds and the milliseconds of a count of milliseconds that is
    [s * 1000 + k], through Go's division, which truncates, and
    [time.Unix], which carries the negative rest. *)
Lemma Unix_of_millis s k :
  (0 <= k < 1000)%Z -> (- 2 ^ 63 <= s * 1000 + k < 2 ^ 63)%Z ->
  let i64 := (s * 1000 + k)%Z in
  time.Unix (i64 ÷ 1000)%Z (int64 (Z.rem i64 1000 * 1000000))
  = time.mkTime s (k * 10 ^ 6).
Proof.
  intros Hk Hr i64. subst i64.
  pose proof (Z.quot_rem' (s * 1000 + k) 1000) as Hqr.
  pose proof (Z.rem_bound_abs (s * 1000 + k) 1000 ltac:(lia)) as Habs.
  destruct (Z_le_gt_dec 0 (s * 1000 + k)) as [Hpos|Hneg].
  - pose proof (Z.rem_nonneg (s * 1000 + k) 1000 ltac:(lia) Hpos) as Hrn.
    assert (Z.rem (s * 1000 + k) 1000 = k /\ (s * 1000 + k) ÷ 1000 = s)%Z as [Hr' Hq'] by lia.
    rewrite Hr', Hq'. rewrite int64_small by lia.
    unfold time.Unix.
    rewrite (proj2 (Z.ltb_ge _ _)) by lia. rewrite (proj2 (Z.leb_gt _ _)) by lia.
    simpl. f_equal.
  - pose proof (Z.rem_nonpos (s * 1000 + k) 1000 ltac:(lia) ltac:(lia)) as Hrn.
    destruct (decide (k = 0)%Z) as [->|Hk0].
    + assert (Z.rem (s * 1000 + 0) 1000 = 0 /\ (s * 1000 + 0) ÷ 1000 = s)%Z as [Hr' Hq'] by lia.
      rewrite Hr', Hq'. reflexivity.
    + assert (Z.rem (s * 1000 + k) 1000 = k - 1000
              /\ (s * 1000 + k) ÷ 1000 = s + 1)%Z as [Hr' Hq'] by lia.
      rewrite Hr', Hq'. rewrite int64_small by lia.
      unfold time.Unix.
      rewrite (proj2 (Z.ltb_lt _ _)) by lia. cbn [orb].
      assert (((k - 1000) * 1000000) ÷ 10 ^ 9 = 0)%Z as ->.
      { apply Z.quot_small_iff; lia. }
      rewrite Z.add_0_r, Z.mul_0_l.
      change (int64 0) with 0%Z. rewrite Z.sub_0_r.
      rewrite (int64_small ((k - 1000) * 1000000)) by lia.
      rewrite (proj2 (Z.ltb_lt _ _)) by lia.
      rewrite (int64_small (s + 1)) by lia.
      rewrite !int64_small by lia. f_equal; lia.
Qed.

(** A [DateTime] written as a BSON value and read back is the same
    instant cut to the millisecond, also before 1970, where the count is
    negative; this needs the count of milliseconds to fit 64 bits.  The
    value is tagged as a BSON date and has eight bytes.  Reading looks at
    the tag only to tell null: under any other tag the eight bytes are read
    as a date. *)
Theorem DateTime_BSON_value_round_trip
    (NormalizeTimeForMarshal : time.Time_ -> time.Time_) (t old : time.Time_) :
  let tNorm := NormalizeTimeForMarshal t in
  let millis := (time.Nanosecond tNorm / 10 ^ 6)%Z in
  (0 <= time.Nanosecond tNorm < 10 ^ 9)%Z ->
  (- 2 ^ 63 <= time.Unix_of tNorm * 1000 + millis < 2 ^ 63)%Z ->
  exists buf : list Z,
    DateTime_MarshalBSONValue NormalizeTimeForMarshal t = (bson.TypeDateTime, buf, None)
    /\ length buf = 8%nat
    /\ Forall (fun b => 0 <= b < 256)%Z buf
    /\ DateTime_UnmarshalBSONValue old bson.TypeDateTime buf
       = (time.mkTime (time.Unix_of tNorm) (millis * 10 ^ 6), None)
    /\ (forall tpe, tpe <> bson.TypeNull ->
          DateTime_UnmarshalBSONValue old tpe buf
          = DateTime_UnmarshalBSONValue old bson.TypeDateTime buf).
Proof.
  intros tNorm millis Hns Hfit.
  eexists. split; [reflexivity|]. split; [reflexivity|]. split.
  { repeat (apply Forall_cons; split; [apply Z.mod_pos_bound; lia|]). by apply Forall_nil. }
  fold tNorm.
  assert (forall tpe, tpe <> bson.TypeNull ->
            DateTime_UnmarshalBSONValue old tpe
              (binary.PutUint64
                 (uint64 (int64 (int64 (time.Unix_of tNorm * 1000)
                                 + int64 (time.Nanosecond tNorm) ÷ 10 ^ 6))))
            = (time.mkTime (time.Unix_of tNorm) (millis * 10 ^ 6), None)) as Hread.
  { intros tpe Htpe. unfold DateTime_UnmarshalBSONValue.
    destruct (decide (tpe = bson.TypeNull)) as [|_]; [done|].
    destruct (decide (length (binary.PutUint64 _) <> 8%nat)) as [Hlen|_]; [done|].
    rewrite Uint64_PutUint64 by (apply Z.mod_pos_bound; lia).
    rewrite int64_of_uint64.
    rewrite (int64_small (time.Nanosecond tNorm)) by lia.
    rewrite (Z.quot_div_nonneg (time.Nanosecond tNorm) (10 ^ 6)) by lia. fold millis.
    assert (0 <= millis < 1000)%Z as Hm.
    { subst millis. split; [apply Z.div_pos; lia|].
      apply Z.div_lt_upper_bound; lia. }
    rewrite int64_add_l.
    rewrite !(int64_small (time.Unix_of tNorm * 1000 + millis)) by lia.
    f_equal. by apply Unix_of_millis. }
  split; [by apply Hread|].
  intros tpe Htpe. rewrite Hread by done. by rewrite Hread.
Qed.

(** [DateTime_BSON_value_round_trip] on the instant 1.49975 seconds before
    the epoch: the count is -1500, and the 250 microseconds are lost. *)
Lemma DateTime_BSON_value_round_trip_witness :
  let t := time.mkTime (-2) 500250000 in
  DateTime_MarshalBSONValue id t
    = (bson.TypeDateTime, [36; 250; 255; 255; 255; 255; 255; 255]%Z, None)
  /\ DateTime_UnmarshalBSONValue time.zero bson.TypeDateTime
       [36; 250; 255; 255; 255; 255; 255; 255]%Z
     = (time.mkTime (-2) 500000000, None).
Proof.
  intros t.
  destruct (DateTime_BSON_value_round_trip id t time.zero
              ltac:(vm_compute; split; [discriminate|reflexivity])
              ltac:(vm_compute; split; [discriminate|reflexivity]))
    as (buf & Hbuf & _ & _ & Hread & _).
  split; [reflexivity|].
  assert (buf = [36; 250; 255; 255; 255; 255; 255; 255]%Z) as <-; [|exact Hread].
  by injection Hbuf as <-.
Defined.

Lemma int64_range z : (- 2 ^ 63 <= int64 z < 2 ^ 63)%Z.
Proof.
  unfold int64. pose proof (Z.mod_pos_bound (z + 2 ^ 63) (2 ^ 64) ltac:(lia)). lia.
Qed.

(** What [UnmarshalBSONValue] makes of its input.  Under the null tag it
    gives the zero time, whatever the bytes.  Otherwise it fails, leaving
    the receiver as it was, unless there are exactly eight bytes; and on
    eight bytes it never fails: the count of milliseconds they hold, read as
    a signed number, is split by rounding down, so the nanoseconds of the
    result are whole milliseconds in [0, 1e9), before 1970 too. *)
Theorem DateTime_UnmarshalBSONValue_cases (old : time.Time_) (tpe : Z) (data : list Z) :
  let i64 := int64 (binary.Uint64 data) in
  let r := DateTime_UnmarshalBSONValue old tpe data in
  (tpe = bson.TypeNull -> r = (time.zero, None))
  /\ (tpe <> bson.TypeNull -> length data <> 8%nat -> r = (old, Some DateLengthNot8))
  /\ (tpe <> bson.TypeNull -> length data = 8%nat ->
        r = (time.mkTime (i64 / 1000) (i64 mod 1000 * 10 ^ 6), None)
        /\ (0 <= time.Nanosecond r.1 < 10 ^ 9)%Z
        /\ (time.Unix_of r.1 * 1000 + time.Nanosecond r.1 / 10 ^ 6 = i64)%Z).
Proof.
  intros i64 r. subst r. unfold DateTime_UnmarshalBSONValue.
  split; [|split].
  - intros ->. reflexivity.
  - intros Htpe Hlen. destruct (decide (tpe = bson.TypeNull)); [done|].
    destruct (decide (length data <> 8%nat)); done.
  - intros Htpe Hlen. destruct (decide (tpe = bson.TypeNull)); [done|].
    destruct (decide (length data <> 8%nat)); [done|].
    fold i64.
    pose proof (int64_range (binary.Uint64 data)) as Hr. fold i64 in Hr.
    pose proof (Z.mod_pos_bound i64 1000 ltac:(lia)) as Hk.
    pose proof (Z.div_mod i64 1000 ltac:(lia)) as Hdm.
    pose proof (Unix_of_millis (i64 / 1000) (i64 mod 1000) Hk ltac:(lia)) as Hu.
    cbv zeta in Hu.
    replace (i64 / 1000 * 1000 + i64 mod 1000)%Z with i64 in Hu by lia.
    rewrite Hu. cbn [fst time.Nanosecond time.Unix_of].
    split; [done|]. split; [lia|].
    rewrite Z.div_mul by lia. lia.
Qed.
